(** * sgqlc.codegen: the GraphQL introspection-to-Python schema compiler

    A shallow embedding of [sgqlc/codegen/__init__.py] and the properties
    of its literal evaluator, schema loader, type classifier, dependency
    orderer, reference resolver and declaration emitter.

    Python objects are modelled as the code uses them: introspection
    dictionaries are records with one field per key of the standard
    introspection query (a JSON [null] is [None]), the set [written_types]
    is a [gset string], the index [type_by_name] a [gmap], the writer is
    the list of text chunks it was called with, and exceptions are values
    of [exn] threaded through a state-and-error monad. *)

From Stdlib Require Import ZArith Ascii String List Permutation.
From stdpp Require Import gmap strings list pretty sorting.

Set Warnings "-register-all".
Set Default Proof Using "Type".
Set Proof Using Clear Unused.
Local Open Scope Z_scope.

(** ** Exceptions and results *)

Inductive exn : Type :=
| AssertionError (args : list (option string))
| TypeError
| KeyError (key : string)
| AttributeError
| ValueError
| GraphQLSyntaxError
| SystemExit (msg : string).

Inductive result (A : Type) : Type :=
| Ok (a : A)
| Raise (e : exn).
Arguments Ok {A} a.
Arguments Raise {A} e.

#[global] Instance result_ret : MRet result := fun A a => Ok a.
#[global] Instance result_bind : MBind result := fun A B f m =>
  match m with Ok a => f a | Raise e => Raise e end.
#[global] Instance result_fmap : FMap result := fun A B f m =>
  match m with Ok a => Ok (f a) | Raise e => Raise e end.

(** ** Python strings *)

Definition str_chars (s : string) : list ascii := list_ascii_of_string s.
Definition chars_str (l : list ascii) : string := string_of_list_ascii l.

(** [s.startswith(p)] and [s.endswith(p)]. *)
Definition startswith (s p : string) : bool := String.prefix p s.
Definition endswith (s p : string) : bool :=
  String.prefix (chars_str (rev (str_chars p))) (chars_str (rev (str_chars s))).

(** [s[1:]]. *)
Definition str_tail (s : string) : string :=
  match s with EmptyString => EmptyString | String _ r => r end.

(** [sep.join(parts)]. *)
Fixpoint join (sep : string) (parts : list string) : string :=
  match parts with
  | [] => ""
  | [p] => p
  | p :: ps => p +:+ sep +:+ join sep ps
  end.

(** ['#' * n]. *)
Fixpoint str_repeat (c : string) (n : nat) : string :=
  match n with O => "" | S k => c +:+ str_repeat c k end.

Definition nl : string := String (ascii_of_nat 10) "".
Definition dquote : ascii := ascii_of_nat 34.

Definition hex_digit (n : N) : ascii :=
  ascii_of_N (if (n <? 10)%N then 48 + n else 87 + n).

(** One character of [repr(str)], for the quote character [q] chosen by
    [py_repr].  Bytes from 128 up belong to UTF-8 encoded characters and are
    copied. *)
Definition repr_char (q c : ascii) : string :=
  let n := N_of_ascii c in
  if (Ascii.eqb c q || Ascii.eqb c "\")%bool then String "\" (String c "")
  else if (n =? 9)%N then "\t"
  else if (n =? 10)%N then "\n"
  else if (n =? 13)%N then "\r"
  else if ((n <? 32) || (n =? 127))%bool%N
       then String "\" (String "x" (String (hex_digit (n / 16)) (String (hex_digit (n mod 16)) "")))
  else String c "".

Definition has_char (c : ascii) (s : string) : bool :=
  existsb (Ascii.eqb c) (str_chars s).

(** [repr(s)] of a Python [str]: single quotes, unless the text holds a
    single quote and no double quote. *)
Definition py_repr (s : string) : string :=
  let q : ascii := if (has_char "'" s && negb (has_char dquote s))%bool then dquote else "'"%char in
  String q (fold_right (fun c acc => repr_char q c +:+ acc) (String q "") (str_chars s)).

(** [repr(t)] of a tuple whose items are already rendered. *)
Definition tuple_repr (items : list string) : string :=
  "(" +:+ join ", " items +:+ (if decide (length items = 1%nat) then "," else "") +:+ ")".

(** [int(text)] on the text of an integer token: an optional minus sign and
    decimal digits. *)
Definition is_digit (c : ascii) : bool :=
  let n := N_of_ascii c in ((48 <=? n) && (n <=? 57))%bool%N.

Definition digits_value (l : list ascii) : Z :=
  fold_left (fun acc c => 10 * acc + (Z.of_N (N_of_ascii c) - 48)) l 0.

Definition py_int (text : string) : result Z :=
  let digits_only l :=
    match l with
    | [] => Raise ValueError
    | _ => if forallb is_digit l then Ok (digits_value l) else Raise ValueError
    end in
  match str_chars text with
  | c :: l => if Ascii.eqb c "-" then Z.opp <$> digits_only l else digits_only (c :: l)
  | [] => Raise ValueError
  end.

(** ** The value-literal syntax tree of the graphql library

    The node kinds [JSONOutputVisitor] has a [leave_] method for. *)

Inductive value_node : Type :=
| IntValue (value : string)
| FloatValue (value : string)
| StringValue (value : string)
| BooleanValue (value : bool)
| EnumValue (value : string)
| NullValue
| ListValue (values : list value_node)
| ObjectValue (fields : list object_field)
with object_field : Type :=
| ObjectField (name : string) (value : value_node).

(** ** Introspection records *)

(** A type reference [{kind, name, ofType}]. *)
Inductive TypeRef : Type :=
| mkTypeRef (kind : string) (name : option string) (ofType : option TypeRef).

Definition ref_kind (t : TypeRef) : string := let 'mkTypeRef k _ _ := t in k.
Definition ref_name (t : TypeRef) : option string := let 'mkTypeRef _ n _ := t in n.
Definition ref_ofType (t : TypeRef) : option TypeRef := let 'mkTypeRef _ _ o := t in o.

Record Arg : Type := mkArg {
  arg_name : string;
  arg_type : TypeRef;
  arg_defaultValue : option string }.

Record Field : Type := mkField {
  field_name : string;
  field_type : TypeRef;
  field_args : list Arg }.

Record IntrospectionType : Type := mkType {
  kind : string;
  name : string;
  fields : option (list Field);
  inputFields : option (list Field);
  interfaces : option (list TypeRef);
  enumValues : option (list string);
  possibleTypes : option (list TypeRef) }.

Record Schema : Type := mkSchema {
  types : list IntrospectionType;
  queryType : option string;
  mutationType : option string;
  subscriptionType : option string }.

(** ** The phase-3 comparator *)

(** A list or [None] used as a condition. *)
Definition truthy_list {A} (l : option (list A)) : bool :=
  match l with Some (_ :: _) => true | _ => false end.

Definition iter_list {A} (l : option (list A)) : list A :=
  match l with Some l => l | None => [] end.

Fixpoint has_iface (ifaces : list TypeRef) (name : string) : bool :=
  match ifaces with
  | [] => false
  | iface :: rest =>
      if decide (Some name = ref_name iface) then true else has_iface rest name
  end.

Definition depend_cmp (a b : IntrospectionType) : Z :=
  let a_ifaces := interfaces a in
  let b_ifaces := interfaces b in
  if (negb (truthy_list a_ifaces) && truthy_list b_ifaces)%bool then -1
  else if (truthy_list a_ifaces && negb (truthy_list b_ifaces))%bool then 1
  else if (negb (truthy_list a_ifaces) && negb (truthy_list b_ifaces))%bool then 0
  else if decide (length (iter_list a_ifaces) < length (iter_list b_ifaces))%nat then
    if has_iface (iter_list a_ifaces) (name b) then 1
    else if has_iface (iter_list b_ifaces) (name a) then -1
    else 0
  else
    if has_iface (iter_list b_ifaces) (name a) then -1
    else if has_iface (iter_list a_ifaces) (name b) then 1
    else 0.

(** ** [list.sort]

    CPython sorts a list shorter than 64 items (the minimum run length of
    its merge sort) in two steps: [count_run] finds the run the list starts
    with, reversing it when it is strictly descending, and [binarysort]
    inserts each remaining item into the sorted prefix at the place a
    binary search gives.  Only [<] is ever asked of two items.  (A longer
    list is cut into such runs, which are then merged; of the properties
    below, those stated for every schema only use that sorting rearranges
    the list, those about the order are stated on lists of this size.) *)

Section ListSort.
Context {A : Type} (lt : A -> A -> bool).

Fixpoint run_ascending (prev : A) (l : list A) : nat :=
  match l with
  | [] => O
  | x :: r => if lt x prev then O else S (run_ascending x r)
  end.

Fixpoint run_descending (prev : A) (l : list A) : nat :=
  match l with
  | [] => O
  | x :: r => if lt x prev then S (run_descending x r) else O
  end.

(** Length of the leading run, and whether it is descending. *)
Definition count_run (l : list A) : nat * bool :=
  match l with
  | [] => (O, false)
  | [x] => (1%nat, false)
  | x :: y :: r =>
      if lt y x then (2 + run_descending y r, true)%nat
      else (2 + run_ascending y r, false)%nat
  end.

(** The binary search of [binarysort]: where [pivot] belongs in [a],
    between [l] and [r]. *)
Fixpoint bisect (fuel : nat) (a : list A) (pivot : A) (l r : nat) : nat :=
  match fuel with
  | O => l
  | S k =>
      if decide (l < r)%nat then
        let p := (l + (r - l) / 2)%nat in
        match a !! p with
        | Some x => if lt pivot x then bisect k a pivot l p
                    else bisect k a pivot (S p) r
        | None => l
        end
      else l
  end.

Definition insert_pivot (sorted : list A) (pivot : A) : list A :=
  let l := bisect (S (length sorted)) sorted pivot O (length sorted) in
  take l sorted ++ pivot :: drop l sorted.

Definition binarysort (sorted rest : list A) : list A :=
  fold_left insert_pivot rest sorted.

Definition list_sort (l : list A) : list A :=
  match l with
  | [] | [_] => l
  | _ =>
      let '(n, descending) := count_run l in
      let run := take n l in
      binarysort (if descending then rev run else run) (drop n l)
  end.
End ListSort.

(** [functools.cmp_to_key(CodeGen.depend_cmp)]: the key's [<]. *)
Definition depend_lt (a b : IntrospectionType) : bool := depend_cmp a b <? 0.

(** [sorted(schema['types'], key=lambda x: x['name'])]. *)
Definition name_lt (a b : IntrospectionType) : bool := String.ltb (name a) (name b).

(** ** Class constants *)

Definition builtin_types : list string := ["Int"; "Float"; "String"; "Boolean"; "ID"].
Definition datetime_types : list string := ["DateTime"; "Date"; "Time"].
Definition relay_types : list string := ["Node"; "PageInfo"].
Definition builtin_enum_names : list string := ["__TypeKind"; "__DirectiveLocation"].
Definition builtin_object_names : list string :=
  ["__Schema"; "__Type"; "__Field"; "__Directive"; "__EnumValue"; "__InputValue"].

Definition str_in (s : string) (l : list string) : bool := bool_decide (s ∈ l).

(** ** Example schemas *)

Definition named (kind name : string) : TypeRef := mkTypeRef kind (Some name) None.
Definition non_null (t : TypeRef) : TypeRef := mkTypeRef "NON_NULL" None (Some t).

Definition id_field : Field := mkField "id" (non_null (named "SCALAR" "ID")) [].

(** An interface chain: [D] implements [A], the object [B] implements [D]
    and with it [A], the object [C] implements [A] alone.

      interface A { id: ID! }
      interface D implements A { id: ID! }
      type B implements D & A { id: ID! }
      type C implements A { id: ID! } *)
Definition chain_A : IntrospectionType :=
  mkType "INTERFACE" "A" (Some [id_field]) None (Some []) None None.
Definition chain_B : IntrospectionType :=
  mkType "OBJECT" "B" (Some [id_field]) None
    (Some [named "INTERFACE" "D"; named "INTERFACE" "A"]) None None.
Definition chain_C : IntrospectionType :=
  mkType "OBJECT" "C" (Some [id_field]) None (Some [named "INTERFACE" "A"]) None None.
Definition chain_D : IntrospectionType :=
  mkType "INTERFACE" "D" (Some [id_field]) None (Some [named "INTERFACE" "A"]) None None.

Definition chain_schema : Schema :=
  mkSchema [chain_A; chain_B; chain_C; chain_D] None None None.

(** The minimal schema of section 8: the scalar [ID], the enum [Color],
    the object [Item] and the query root. *)
Definition minimal_ID : IntrospectionType :=
  mkType "SCALAR" "ID" None None None None None.
Definition minimal_Color : IntrospectionType :=
  mkType "ENUM" "Color" None None None (Some ["RED"; "GREEN"; "BLUE"]) None.
Definition minimal_Item : IntrospectionType :=
  mkType "OBJECT" "Item"
    (Some [id_field; mkField "color" (named "ENUM" "Color") []]) None (Some []) None None.
Definition minimal_Query : IntrospectionType :=
  mkType "OBJECT" "Query"
    (Some [mkField "item" (named "OBJECT" "Item")
             [mkArg "first" (named "SCALAR" "Int") (Some "42")]]) None (Some []) None None.

Definition minimal_schema : Schema :=
  mkSchema [minimal_ID; minimal_Color; minimal_Item; minimal_Query] (Some "Query") None None.

(** An object with a field of its own beside the one of its interface. *)
Definition node_interface : IntrospectionType :=
  mkType "INTERFACE" "Node" (Some [id_field]) None None None None.
Definition user_object : IntrospectionType :=
  mkType "OBJECT" "User"
    (Some [id_field; mkField "login" (named "SCALAR" "String") []]) None
    (Some [named "INTERFACE" "Node"]) None None.
Definition user_schema : Schema := mkSchema [node_interface; user_object] None None None.

(** Stand-ins for the collaborators, to run the generator on the examples,
    which hold no float: a float is kept as the text it was read from, a
    name is left as it is (what [_to_python_name] does to a lower-case name
    that is no keyword), and the parser reads integer literals. *)
Definition text_float (text : string) : string := text.
Definition text_float_bool (f : string) : bool := true.
Definition same_name (name : string) : string := name.
Definition parse_int_literal (source : string) : result value_node :=
  match py_int source with
  | Ok _ => Ok (IntValue source)
  | Raise _ => Raise GraphQLSyntaxError
  end.

Section Model.
(** Collaborators outside this module: Python's [float] (its conversion
    from text, its [repr] and its truth value), [BaseItem._to_python_name]
    of [sgqlc.types], and the graphql library's [parse_value]. *)
Context {pyfloat : Type}.
Variable float : string -> pyfloat.
Variable float_repr : pyfloat -> string.
Variable float_bool : pyfloat -> bool.
Variable to_python_name : string -> string.
Variable parse_graphql_value : string -> result value_node.

(** ** Native Python values

    What [json.load] and the literal evaluator return.  A [dict] keeps its
    keys in insertion order; the keys are text. *)
Inductive pyval : Type :=
| PNone
| PBool (b : bool)
| PInt (z : Z)
| PFloat (f : pyfloat)
| PStr (s : string)
| PList (items : list pyval)
| PTuple (items : list pyval)
| PDict (entries : list (string * pyval)).

(** [bool(v)]. *)
Definition truthy (v : pyval) : bool :=
  match v with
  | PNone => false
  | PBool b => b
  | PInt z => negb (z =? 0)
  | PFloat f => float_bool f
  | PStr s => negb (String.eqb s "")
  | PList l | PTuple l => match l with [] => false | _ => true end
  | PDict d => match d with [] => false | _ => true end
  end.

Fixpoint assoc {V} (k : string) (d : list (string * V)) : option V :=
  match d with
  | [] => None
  | (k', v) :: r => if decide (k = k') then Some v else assoc k r
  end.

(** [d[k] = v]: an existing key keeps its place. *)
Fixpoint dict_set {V} (d : list (string * V)) (k : string) (v : V) : list (string * V) :=
  match d with
  | [] => [(k, v)]
  | (k', v') :: r => if decide (k = k') then (k, v) :: r else (k', v') :: dict_set r k v
  end.

(** [d.get(k, default)] on a dict; any other value has no [get]. *)
Definition py_get (v : pyval) (k : string) (default : pyval) : result pyval :=
  match v with
  | PDict d => Ok (match assoc k d with Some x => x | None => default end)
  | _ => Raise AttributeError
  end.

(** [d[k]]. *)
Definition py_getitem (v : pyval) (k : string) : result pyval :=
  match v with
  | PDict d => match assoc k d with Some x => Ok x | None => Raise (KeyError k) end
  | _ => Raise TypeError
  end.

(** [dict(items)] for a list of key-value pairs. *)
Fixpoint py_dict_from (d : list (string * pyval)) (items : list pyval) : result pyval :=
  match items with
  | [] => Ok (PDict d)
  | (PTuple [PStr k; v] | PList [PStr k; v]) :: r => py_dict_from (dict_set d k v) r
  | _ => Raise TypeError
  end.
Definition py_dict (items : list pyval) : result pyval := py_dict_from [] items.

(** [repr(v)]. *)
Fixpoint repr_value (v : pyval) : string :=
  match v with
  | PNone => "None"
  | PBool true => "True"
  | PBool false => "False"
  | PInt z => pretty z
  | PFloat f => float_repr f
  | PStr s => py_repr s
  | PList l => "[" +:+ join ", " (map repr_value l) +:+ "]"
  | PTuple l => tuple_repr (map repr_value l)
  | PDict d =>
      "{" +:+ join ", " (map (fun kv => py_repr kv.1 +:+ ": " +:+ repr_value kv.2) d) +:+ "}"
  end.

(** ** Literal evaluator *)

(** What a visitor method sees of a node on leaving it: the children
    already replaced by what their own [leave_] method returned. *)
Record Visitor : Type := mkVisitor {
  leave_IntValue : string -> result pyval;
  leave_FloatValue : string -> result pyval;
  leave_StringValue : string -> result pyval;
  leave_BooleanValue : bool -> result pyval;
  leave_EnumValue : string -> result pyval;
  leave_ListValue : list pyval -> result pyval;
  leave_ObjectValue : list pyval -> result pyval;
  leave_ObjectField : string -> pyval -> result pyval;
  leave_NullValue : result pyval }.

Definition JSONOutputVisitor : Visitor := {|
  leave_IntValue value := PInt <$> py_int value;
  leave_FloatValue value := Ok (PFloat (float value));
  leave_StringValue value := Ok (PStr value);
  leave_BooleanValue value := Ok (PBool value);
  leave_EnumValue value := Ok (PStr value);
  leave_ListValue values := Ok (PList values);
  leave_ObjectValue fields := py_dict fields;
  leave_ObjectField name value := Ok (PTuple [PStr name; value]);
  leave_NullValue := Ok PNone |}.

(** What [visit] hands back: a node of the tree or the value that
    replaced it. *)
Inductive visited : Type :=
| Node (n : value_node)
| Val (v : pyval).

(** Modelled from the spec: the graphql library's [visit] is not part of
    this module.  It is the bottom-up walk of section 4.1: the children of
    a node are visited first, each is replaced by what the visitor's
    [leave_] method returned for it, and then the node itself is left. *)
Fixpoint visit_node (v : Visitor) (n : value_node) : result pyval :=
  match n with
  | IntValue value => leave_IntValue v value
  | FloatValue value => leave_FloatValue v value
  | StringValue value => leave_StringValue v value
  | BooleanValue value => leave_BooleanValue v value
  | EnumValue value => leave_EnumValue v value
  | NullValue => leave_NullValue v
  | ListValue values =>
      values ← mapM (visit_node v) values;
      leave_ListValue v values
  | ObjectValue fields =>
      fields ← mapM (fun field =>
                       let 'ObjectField name value := field in
                       value ← visit_node v value;
                       leave_ObjectField v name value) fields;
      leave_ObjectValue v fields
  end.

Definition visit (n : value_node) (v : Visitor) : result visited :=
  Val <$> visit_node v n.

(** The [value] attribute of a node. *)
Definition node_value (n : value_node) : result pyval :=
  match n with
  | IntValue value | FloatValue value | StringValue value | EnumValue value => Ok (PStr value)
  | BooleanValue value => Ok (PBool value)
  | NullValue | ListValue _ | ObjectValue _ => Raise AttributeError
  end.

Definition parse_graphql_value_to_json (source : string) : result pyval :=
  value ← parse_graphql_value source;
  v ← visit value JSONOutputVisitor;
  match v with
  | Node n => node_value n
  | Val v => Ok v
  end.

(** The evaluation of section 4.1, stated on the syntax tree: scalars map
    to native scalars, an enum value to its bare name, a list to the list
    of its evaluated items, an object to the mapping of its evaluated
    fields in the order written, null to the null value. *)
Definition ordered_mapping (pairs : list (string * pyval)) : pyval :=
  PDict (foldl (fun d kv => dict_set d kv.1 kv.2) [] pairs).

Fixpoint evaluate (n : value_node) : result pyval :=
  match n with
  | IntValue text => z ← py_int text; Ok (PInt z)
  | FloatValue text => Ok (PFloat (float text))
  | StringValue text => Ok (PStr text)
  | BooleanValue b => Ok (PBool b)
  | EnumValue name => Ok (PStr name)
  | NullValue => Ok PNone
  | ListValue items => PList <$> mapM evaluate items
  | ObjectValue fields =>
      ordered_mapping <$>
        mapM (fun field =>
                let 'ObjectField key value := field in
                y ← evaluate value; Ok (key, y)) fields
  end.

(** ** Schema loader: [load_schema] after [json.load] *)

Definition load_schema (schema : pyval) : result pyval :=
  match schema with
  | PDict _ =>
      types ← py_get schema "types" PNone;
      if truthy types then Ok schema
      else
        data ← py_get schema "data" (PDict []);
        inner ← py_get data "__schema" PNone;
        if truthy inner then
          data ← py_getitem schema "data";
          py_getitem data "__schema"
        else
          inner ← py_get schema "__schema" PNone;
          if truthy inner then py_getitem schema "__schema"
          else Raise (SystemExit "schema must be introspection object or query result")
  | _ => Raise (SystemExit "schema must be a JSON object")
  end.

(** ** Generator state

    [written_types] and the text handed to [writer], in call order.  They
    are the only things a [CodeGen] changes after [__init__]; a raised
    exception leaves them as they were at that moment. *)
Record GenState : Type := mkState {
  written_types : gset string;
  output : list string }.

Definition gen (A : Type) : Type := GenState -> result A * GenState.

#[local] Instance gen_ret : MRet gen := fun A a st => (Ok a, st).
#[local] Instance gen_bind : MBind gen := fun A B f m st =>
  match m st with
  | (Ok a, st') => f a st'
  | (Raise e, st') => (Raise e, st')
  end.

Definition raise {A} (e : exn) : gen A := fun st => (Raise e, st).
Definition lift {A} (r : result A) : gen A := fun st => (r, st).
Definition get_written : gen (gset string) := fun st => (Ok (written_types st), st).
Definition add_written (name : string) : gen unit := fun st =>
  (Ok (), mkState ({[name]} ∪ written_types st) (output st)).
Definition writer (text : string) : gen unit := fun st =>
  (Ok (), mkState (written_types st) (output st ++ [text])).

(** [for x in xs: body(x)]. *)
Fixpoint for_each {A} (body : A -> gen unit) (xs : list A) : gen unit :=
  match xs with
  | [] => mret ()
  | x :: rest => body x ;; for_each body rest
  end.

(** Iterating a value that may be [None]. *)
Definition iter {A} (l : option (list A)) : result (list A) :=
  match l with Some l => Ok l | None => Raise TypeError end.

(** ** [CodeGen] *)

Record CodeGen : Type := mkCodeGen {
  self_schema_name : string;
  self_types : list IntrospectionType;
  self_type_by_name : gmap string IntrospectionType;
  self_query_type : option string;
  self_mutation_type : option string;
  self_subscription_type : option string;
  self_uses_datetime : bool;
  self_uses_relay : bool }.

(** The loop of [analyze], from the flags so far. *)
Fixpoint analyze (ts : list IntrospectionType) (uses_datetime uses_relay : bool) : bool * bool :=
  match ts with
  | [] => (uses_datetime, uses_relay)
  | t :: rest =>
      if str_in (name t) datetime_types then
        if uses_relay then (true, uses_relay) else analyze rest true uses_relay
      else if str_in (name t) relay_types then
        if uses_datetime then (uses_datetime, true) else analyze rest uses_datetime true
      else analyze rest uses_datetime uses_relay
  end.

Definition CodeGen_init (schema_name : string) (schema : Schema) : CodeGen :=
  let types := list_sort name_lt (types schema) in
  let flags := analyze types false false in
  {| self_schema_name := schema_name;
     self_types := types;
     self_type_by_name := foldl (fun m t => <[name t := t]> m) ∅ types;
     self_query_type := queryType schema;
     self_mutation_type := mutationType schema;
     self_subscription_type := subscriptionType schema;
     self_uses_datetime := flags.1;
     self_uses_relay := flags.2 |}.

Definition initial_state : GenState := mkState ∅ [].

Section Methods.
Variable self : CodeGen.

Definition write_banner (text : string) : gen unit :=
  let bar := str_repeat "#" 72 in
  writer (nl +:+ bar +:+ nl +:+ "# " +:+ text +:+ nl +:+ bar +:+ nl).

Definition write_type_enum (t : IntrospectionType) : gen unit :=
  let name := name t in
  if str_in name builtin_enum_names then mret ()
  else
    values ← lift (iter (enumValues t));
    writer ("class " +:+ name +:+ "(sgqlc.types.Enum):" +:+ nl +:+
            "    __schema__ = " +:+ self_schema_name self +:+ nl +:+
            "    __choices__ = " +:+ tuple_repr (map py_repr values) +:+ nl +:+
            nl +:+ nl);;
    add_written name.

Fixpoint get_type_ref (written : gset string) (t : TypeRef) (siblings : gset string)
  : result string :=
  match t with
  | mkTypeRef kind name ofType =>
      if decide (kind = "NON_NULL") then
        match ofType with
        | Some of_type =>
            r ← get_type_ref written of_type siblings;
            Ok ("sgqlc.types.non_null(" +:+ r +:+ ")")
        | None => Raise TypeError
        end
      else if decide (kind = "LIST") then
        match ofType with
        | Some of_type =>
            r ← get_type_ref written of_type siblings;
            Ok ("sgqlc.types.list_of(" +:+ r +:+ ")")
        | None => Raise TypeError
        end
      else
        match name with
        | Some name =>
            if (bool_decide (name ∈ written) && negb (bool_decide (name ∈ siblings)))%bool
            then Ok name
            else Ok (py_repr name)
        | None => Ok "None"
        end
  end.

Definition type_ref (t : TypeRef) (siblings : gset string) : gen string :=
  written ← get_written; lift (get_type_ref written t siblings).

Definition get_py_fields_and_siblings (own_fields : list Field)
  : list string * gset string :=
  let graphql_fields := map field_name own_fields in
  (map to_python_name graphql_fields, list_to_set graphql_fields).

Definition write_field_input (field : Field) (siblings : gset string) : gen unit :=
  let name := field_name field in
  tref ← type_ref (field_type field) siblings;
  writer ("    " +:+ to_python_name name +:+ " = sgqlc.types.Field(" +:+ tref +:+
          ", graphql_name=" +:+ py_repr name +:+ ")" +:+ nl).

Definition write_arg (arg : Arg) (siblings : gset string) : gen unit :=
  let name := arg_name arg in
  tref ← type_ref (arg_type arg) siblings;
  defval ← match arg_defaultValue arg with
           | None => mret "None"
           | Some defval =>
               if String.eqb defval "" then mret defval
               else if startswith defval "$" then
                 mret ("sgqlc.types.Variable(" +:+ py_repr (str_tail defval) +:+ ")")
               else
                 v ← lift (parse_graphql_value_to_json defval);
                 mret (repr_value v)
           end;
  writer ("        (" +:+ py_repr (to_python_name name) +:+ ", sgqlc.types.Arg(" +:+ tref +:+
          ", graphql_name=" +:+ py_repr name +:+ ", default=" +:+ defval +:+ "))," +:+ nl).

Definition write_field_output (field : Field) (siblings : gset string) : gen unit :=
  let name := field_name field in
  tref ← type_ref (field_type field) siblings;
  writer ("    " +:+ to_python_name name +:+ " = sgqlc.types.Field(" +:+ tref +:+
          ", graphql_name=" +:+ py_repr name);;
  let args := field_args field in
  match args with
  | [] => mret ()
  | _ =>
      writer (", args=sgqlc.types.ArgDict((" +:+ nl);;
      for_each (fun a => write_arg a siblings) args;;
      writer ("))" +:+ nl +:+ "    ")
  end;;
  writer (")" +:+ nl).

Definition write_type_container (t : IntrospectionType) (bases : string)
    (own_fields : list Field) (write_field : Field -> gset string -> gen unit) : gen unit :=
  let name := name t in
  let '(py_fields, siblings) := get_py_fields_and_siblings own_fields in
  writer ("class " +:+ name +:+ "(" +:+ bases +:+ "):" +:+ nl +:+
          "    __schema__ = " +:+ self_schema_name self +:+ nl +:+
          "    __field_names__ = " +:+ tuple_repr (map py_repr py_fields) +:+ nl);;
  for_each (fun field => write_field field siblings) own_fields;;
  writer (nl +:+ nl);;
  add_written name.

Definition write_type_input_object (t : IntrospectionType) : gen unit :=
  own_fields ← lift (iter (inputFields t));
  write_type_container t "sgqlc.types.Input" own_fields write_field_input.

Definition write_type_interface (t : IntrospectionType) : gen unit :=
  own_fields ← lift (iter (fields t));
  write_type_container t "sgqlc.types.Interface" own_fields write_field_output.

(** The loop of [write_type_object] over the interfaces of the type. *)
Fixpoint object_interfaces (written : gset string) (ifaces : list TypeRef)
    (bases : list string) (inherited_fields : gset string)
  : result (list string * gset string) :=
  match ifaces with
  | [] => Ok (bases, inherited_fields)
  | iface :: rest =>
      match ref_name iface with
      | Some iface_name =>
          if bool_decide (iface_name ∈ written) then
            match self_type_by_name self !! iface_name with
            | Some i =>
                iface_fields ← iter (fields i);
                object_interfaces written rest (bases ++ [iface_name])
                  (inherited_fields ∪ list_to_set (map field_name iface_fields))
            | None => Raise (KeyError iface_name)
            end
          else Raise (AssertionError [Some iface_name])
      | None => Raise (AssertionError [None])
      end
  end.

Definition write_type_object (t : IntrospectionType) : gen unit :=
  let name := name t in
  if str_in name builtin_object_names then mret ()
  else
    let bases := if (self_uses_relay self && endswith name "Connection")%bool
                 then ["sgqlc.types.relay.Connection"] else ["sgqlc.types.Type"] in
    written ← get_written;
    '(bases, inherited_fields) ←
      lift (object_interfaces written (iter_list (interfaces t)) bases ∅);
    fields ← lift (iter (fields t));
    let own_fields :=
      List.filter (fun field => negb (bool_decide (field_name field ∈ inherited_fields))) fields in
    write_type_container t (join ", " bases) own_fields write_field_output.

Definition write_type_scalar (t : IntrospectionType) : gen unit :=
  let name := name t in
  (if str_in name builtin_types then
     writer (name +:+ " = sgqlc.types." +:+ name)
   else if str_in name datetime_types then
     writer (name +:+ " = sgqlc.types.datetime." +:+ name)
   else
     writer ("class " +:+ name +:+ "(sgqlc.types.Scalar):" +:+ nl +:+
             "    __schema__ = " +:+ self_schema_name self +:+ nl));;
  writer (nl +:+ nl);;
  add_written name.

Definition write_type_union (t : IntrospectionType) : gen unit :=
  let name := name t in
  possible_types ← lift (iter (possibleTypes t));
  let trailing_comma := if decide (length possible_types = 1%nat) then "," else "" in
  names ← lift (mapM (fun v => match ref_name v with
                               | Some n => Ok n
                               | None => Raise TypeError
                               end) possible_types);
  writer ("class " +:+ name +:+ "(sgqlc.types.Union):" +:+ nl +:+
          "    __schema__ = " +:+ self_schema_name self +:+ nl +:+
          "    __types__ = (" +:+ join ", " names +:+ trailing_comma +:+ ")" +:+ nl +:+
          nl +:+ nl);;
  add_written name.

(** One filtering loop of [write_types]: a type whose kind the mapper
    knows is written, any other goes to [remaining]. *)
Fixpoint phase (mapper : string -> option (IntrospectionType -> gen unit))
    (todo remaining : list IntrospectionType) : gen (list IntrospectionType) :=
  match todo with
  | [] => mret remaining
  | t :: rest =>
      match mapper (kind t) with
      | None => phase mapper rest (remaining ++ [t])
      | Some mapped => mapped t ;; phase mapper rest remaining
      end
  end.

Definition mapper_basic (kind : string) : option (IntrospectionType -> gen unit) :=
  if decide (kind = "ENUM") then Some write_type_enum
  else if decide (kind = "SCALAR") then Some write_type_scalar
  else None.

Definition mapper_input_containers (kind : string)
  : option (IntrospectionType -> gen unit) :=
  if decide (kind = "INPUT_OBJECT") then Some write_type_input_object else None.

Definition mapper_output_containers (kind : string)
  : option (IntrospectionType -> gen unit) :=
  if decide (kind = "INTERFACE") then Some write_type_interface
  else if decide (kind = "OBJECT") then Some write_type_object
  else None.

Definition mapper_post (kind : string) : option (IntrospectionType -> gen unit) :=
  if decide (kind = "UNION") then Some write_type_union else None.

Definition write_types : gen unit :=
  write_banner "Scalars and Enumerations";;
  remaining ← phase mapper_basic (self_types self) [];
  write_banner "Input Objects";;
  remaining ← phase mapper_input_containers remaining [];
  let remaining := list_sort depend_lt remaining in
  write_banner "Output Objects and Interfaces";;
  remaining ← phase mapper_output_containers remaining [];
  write_banner "Unions";;
  remaining ← phase mapper_post remaining [];
  match remaining with
  | [] => mret ()
  | _ => raise (AssertionError [])
  end.

Definition write_datetime_import : gen unit :=
  if negb (self_uses_datetime self) then mret ()
  else writer ("import sgqlc.types.datetime" +:+ nl).

Definition write_relay_import : gen unit :=
  if negb (self_uses_relay self) then mret ()
  else writer ("import sgqlc.types.relay" +:+ nl).

Definition write_relay_fixup : gen unit :=
  if negb (self_uses_relay self) then mret ()
  else writer ("# Unexport Node/PageInfo, let schema re-declare them" +:+ nl +:+
               self_schema_name self +:+ " -= sgqlc.types.relay.Node" +:+ nl +:+
               self_schema_name self +:+ " -= sgqlc.types.relay.PageInfo" +:+ nl +:+
               nl +:+ nl).

Definition write_header : gen unit :=
  writer ("import sgqlc.types" +:+ nl);;
  write_datetime_import;;
  write_relay_import;;
  writer (nl +:+ nl +:+ self_schema_name self +:+ " = sgqlc.types.Schema()" +:+ nl +:+ nl +:+ nl);;
  write_relay_fixup.

Definition str_of_name (n : option string) : string :=
  match n with Some n => n | None => "None" end.

Definition write_entry_points : gen unit :=
  write_banner "Schema Entry Points";;
  writer (self_schema_name self +:+ ".query_type = " +:+ str_of_name (self_query_type self) +:+ nl +:+
          self_schema_name self +:+ ".mutation_type = " +:+ str_of_name (self_mutation_type self) +:+ nl +:+
          self_schema_name self +:+ ".subscription_type = " +:+
            str_of_name (self_subscription_type self) +:+ nl +:+
          nl).

Definition write : gen unit :=
  write_header;;
  write_types;;
  write_entry_points.
End Methods.

(** The record a loaded introspection dictionary is read as. *)
Variable schema_record : pyval -> Schema.

(** [main] from the loaded JSON document on. *)
Definition main (schema_name : string) (document : pyval) : gen unit :=
  schema ← lift (load_schema document);
  write (CodeGen_init schema_name (schema_record schema)).


(** ** Statements of the properties *)

(** [a] and [b] name each other among their interfaces. *)
Definition mutual (a b : IntrospectionType) : Prop :=
  has_iface (iter_list (interfaces a)) (name b) = true /\
  has_iface (iter_list (interfaces b)) (name a) = true.

Definition cyc_a : IntrospectionType :=
  mkType "INTERFACE" "A" (Some []) None (Some [mkTypeRef "INTERFACE" (Some "B") None]) None None.
Definition cyc_b : IntrospectionType :=
  mkType "INTERFACE" "B" (Some []) None (Some [mkTypeRef "INTERFACE" (Some "A") None]) None None.

(** ** Classification *)

Definition kind_in (kinds : list string) (t : IntrospectionType) : bool :=
  str_in (kind t) kinds.

Definition other (kinds : list string) (t : IntrospectionType) : bool :=
  negb (kind_in kinds t).

Definition basic_kinds : list string := ["ENUM"; "SCALAR"].
Definition input_kinds : list string := ["INPUT_OBJECT"].
Definition output_kinds : list string := ["INTERFACE"; "OBJECT"].
Definition post_kinds : list string := ["UNION"].
Definition known_kinds : list string :=
  ["SCALAR"; "ENUM"; "INPUT_OBJECT"; "OBJECT"; "INTERFACE"; "UNION"].

(** The four buckets of section 4.3 and what no phase claims. *)
Record Buckets : Type := mkBuckets {
  scalars_enums : list IntrospectionType;
  input_objects : list IntrospectionType;
  objects_interfaces : list IntrospectionType;
  unions : list IntrospectionType;
  unclaimed : list IntrospectionType }.

Definition classify (ts : list IntrospectionType) : Buckets :=
  let r1 := List.filter (other basic_kinds) ts in
  let r2 := list_sort depend_lt (List.filter (other input_kinds) r1) in
  let r3 := List.filter (other output_kinds) r2 in
  {| scalars_enums := List.filter (kind_in basic_kinds) ts;
     input_objects := List.filter (kind_in input_kinds) r1;
     objects_interfaces := List.filter (kind_in output_kinds) r2;
     unions := List.filter (kind_in post_kinds) r3;
     unclaimed := List.filter (other post_kinds) r3 |}.

(** The writer a mapper has for the kind of [t]. *)
Definition dispatch (mapper : string -> option (IntrospectionType -> gen unit))
    (t : IntrospectionType) : gen unit :=
  match mapper (kind t) with Some mapped => mapped t | None => mret () end.

(** The four phases over the buckets, without the closing assertion. *)
Definition emit_buckets (self : CodeGen) (b : Buckets) : gen unit :=
  write_banner "Scalars and Enumerations";;
  for_each (dispatch (mapper_basic self)) (scalars_enums b);;
  write_banner "Input Objects";;
  for_each (dispatch (mapper_input_containers self)) (input_objects b);;
  write_banner "Output Objects and Interfaces";;
  for_each (dispatch (mapper_output_containers self)) (objects_interfaces b);;
  write_banner "Unions";;
  for_each (dispatch (mapper_post self)) (unions b).

(** A kind one of the four phases has a writer for. *)
Definition known_kind (t : IntrospectionType) : Prop := kind_in known_kinds t = true.

(** The syntax trees of the literals [{a: 1, b: "x"}] and [[1,2,3]]. *)
Definition object_a_b : value_node :=
  ObjectValue [ObjectField "a" (IntValue "1"); ObjectField "b" (StringValue "x")].
Definition list_1_2_3 : value_node :=
  ListValue [IntValue "1"; IntValue "2"; IntValue "3"].

Definition field_key (f : object_field) : string := let 'ObjectField k _ := f in k.
Definition field_value (f : object_field) : value_node := let 'ObjectField _ v := f in v.

(** The two wrapper kinds and the text each puts around a reference. *)
Inductive wrapper : Type := NonNull | ListOf.

Definition wrapper_kind (w : wrapper) : string :=
  match w with NonNull => "NON_NULL" | ListOf => "LIST" end.

Definition wrapper_text (w : wrapper) (inner : string) : string :=
  match w with
  | NonNull => "sgqlc.types.non_null(" +:+ inner +:+ ")"
  | ListOf => "sgqlc.types.list_of(" +:+ inner +:+ ")"
  end.

(** [t] under the wrappers [ws], outermost first. *)
Definition wrap (ws : list wrapper) (t : TypeRef) : TypeRef :=
  foldr (fun w inner => mkTypeRef (wrapper_kind w) None (Some inner)) t ws.

Definition string_ref : TypeRef := mkTypeRef "SCALAR" (Some "String") None.

(** [d.get(k)]. *)
Definition get (d : list (string * pyval)) (k : string) : pyval :=
  match assoc k d with Some v => v | None => PNone end.

(** The document has no [data] entry, or one that is itself an object. *)
Definition data_usable (d : list (string * pyval)) : Prop :=
  match assoc "data" d with
  | None | Some (PDict _) => True
  | Some _ => False
  end.

(** [data.__schema], the null value when there is none. *)
Definition data_schema (d : list (string * pyval)) : pyval :=
  match assoc "data" d with
  | Some (PDict data) => get data "__schema"
  | _ => PNone
  end.

(** The three shapes read by the presence of the field. *)
Definition has_shape (document : pyval) : Prop :=
  exists d, document = PDict d /\
    (is_Some (assoc "types" d) \/
     (exists data, assoc "data" d = Some (PDict data) /\ is_Some (assoc "__schema" data)) \/
     is_Some (assoc "__schema" d)).

Definition schema_format_error (r : result pyval) : Prop :=
  exists msg, r = Raise (SystemExit msg).

Definition not_an_object : string := "schema must be a JSON object".
Definition no_shape : string := "schema must be introspection object or query result".

(** The document [{"types": []}]. *)
Definition empty_types_document : pyval := PDict [("types", PList [])].

(** The line [write_arg] writes for an argument, given the text of its
    type reference and of its default. *)
Definition arg_line (arg : Arg) (tref default : string) : string :=
  "        (" +:+ py_repr (to_python_name (arg_name arg)) +:+ ", sgqlc.types.Arg(" +:+ tref +:+
  ", graphql_name=" +:+ py_repr (arg_name arg) +:+ ", default=" +:+ default +:+ "))," +:+ nl.

(** [n] is the name of a field of an interface that [t] implements, the
    interface looked up by name in [type_by_name]. *)
Definition declared_on_interface (self : CodeGen) (t : IntrospectionType) (n : string) : Prop :=
  exists iface iface_name i iface_fields,
    iface ∈ iter_list (interfaces t) /\
    ref_name iface = Some iface_name /\
    self_type_by_name self !! iface_name = Some i /\
    fields i = Some iface_fields /\
    n ∈ map field_name iface_fields.

(** [m] leaves [written_types] as it is and only appends to the output. *)
Definition keeps {A} (m : gen A) : Prop :=
  forall st, written_types (m st).2 = written_types st /\
             exists chunks, output (m st).2 = output st ++ chunks.

(** [m] removes nothing from [written_types]. *)
Definition grows {A} (m : gen A) : Prop :=
  forall st, written_types st ⊆ written_types (m st).2.

(** [m] is the writer of the type [name]: when it returns, the type was
    either skipped, the state untouched, or its declaration was written
    and [name] added; when it raises, nothing was added. *)
Definition declares (name : string) (skipped : bool) (m : gen unit) : Prop :=
  forall st,
    match m st with
    | (Ok _, st') =>
        if skipped then st' = st
        else written_types st' = {[name]} ∪ written_types st /\
             exists chunks, chunks <> [] /\ output st' = output st ++ chunks
    | (Raise _, st') => written_types st' = written_types st
    end.

(** The query result [{"data": {"__schema": {"types": ["t"]}}}]. *)
Definition envelope_document : pyval :=
  PDict [("data", PDict [("__schema", PDict [("types", PList [PStr "t"])])])].


(** ** Orders of the two sorts *)

(** The order [sorted] puts the types in: by name. *)
Definition name_le (a b : IntrospectionType) : bool := String.leb (name a) (name b).



(** [l] is in the order [le]: no item is followed, however far, by one
that is not above it. *)
Definition in_order {A} (le : A -> A -> bool) (l : list A) : Prop :=
  StronglySorted (fun x y => le x y = true) l.

(** ** What a run leaves in [written_types] *)

(** [t] is one of the built-in introspection enums or meta-objects, which
their writers pass over. *)
Definition skipped (t : IntrospectionType) : bool :=
  (bool_decide (kind t = "ENUM") && str_in (name t) builtin_enum_names
   || bool_decide (kind t = "OBJECT") && str_in (name t) builtin_object_names)%bool.

(** The names of the types of [l] that are not passed over. *)
Definition declared_names (l : list IntrospectionType) : gset string :=
  list_to_set (map name (List.filter (fun t => negb (skipped t)) l)).

(** ** Well-formed references *)

(** Every NON_NULL and LIST of the reference wraps a type. *)
Fixpoint well_wrapped (t : TypeRef) : bool :=
  match t with
  | mkTypeRef kind _ ofType =>
      if decide (kind = "NON_NULL" \/ kind = "LIST") then
        match ofType with
        | Some inner => well_wrapped inner
        | None => false
        end
      else true
  end.

(** ** Runs of the generator *)

(** [mapper] is the mapper of one of the four loops of [write_types],
[kinds] its keys. *)
Definition phase_mapper (self : CodeGen)
    (mapper : string -> option (IntrospectionType -> gen unit)) (kinds : list string) : Prop :=
  mapper = mapper_basic self /\ kinds = basic_kinds \/
  mapper = mapper_input_containers self /\ kinds = input_kinds \/
  mapper = mapper_output_containers self /\ kinds = output_kinds \/
  mapper = mapper_post self /\ kinds = post_kinds.


(** ** The name of the schema

    [cleanup_schema_name] on the UTF-8 text of the name.  The bytes of a
    character outside ASCII are all outside [[A-Za-z0-9_]], so a run of
    such characters is a run of such bytes. *)

(** A character of the class [[A-Za-z0-9_]]. *)
Definition is_name_char (c : ascii) : bool :=
  let n := N_of_ascii c in
  ((65 <=? n) && (n <=? 90) || (97 <=? n) && (n <=? 122) || (48 <=? n) && (n <=? 57)
   || (n =? 95))%bool%N.

Definition is_underscore (c : ascii) : bool := Ascii.eqb c "_".

(** [re.sub('[^A-Za-z0-9_]+', '_', s)], scanning from the left:
    [in_run] tells that the character before belongs to a run that has
    already been replaced. *)
Fixpoint sub_other_runs (in_run : bool) (l : list ascii) : list ascii :=
  match l with
  | [] => []
  | c :: rest =>
      if is_name_char c then c :: sub_other_runs false rest
      else if in_run then sub_other_runs true rest
      else "_"%char :: sub_other_runs true rest
  end.

(** The leading underscores removed. *)
Fixpoint lstrip_underscores (l : list ascii) : list ascii :=
  match l with
  | [] => []
  | c :: rest => if is_underscore c then lstrip_underscores rest else l
  end.

(** [re.sub('(^_+|_+$)', '', s)] on a text without line breaks, where [$]
    is the end of the text: the leading and the trailing underscores
    removed. *)
Definition strip_underscores (l : list ascii) : list ascii :=
  rev (lstrip_underscores (rev (lstrip_underscores l))).

(** [re.match('^[0-9]', s)]. *)
Definition starts_with_digit (l : list ascii) : bool :=
  match l with c :: _ => is_digit c | [] => false end.

Definition cleanup_schema_name (schema_name : string) : string :=
  let schema_name := sub_other_runs false (str_chars schema_name) in
  let schema_name := strip_underscores schema_name in
  let schema_name :=
    if starts_with_digit schema_name then "_"%char :: schema_name else schema_name in
  chars_str schema_name.

(** A letter or a digit of ASCII. *)
Definition is_alnum (c : ascii) : bool := (is_name_char c && negb (is_underscore c))%bool.

Definition starts_with_underscore (l : list ascii) : bool :=
  match l with c :: _ => is_underscore c | [] => false end.

Definition ends_with_underscore (l : list ascii) : bool := starts_with_underscore (rev l).

(** ** Paths into the schema *)

(** The loop of [get_path]: [while d and path: d = d.get(path.pop(0))]. *)
Fixpoint walk_path (d : pyval) (path : list string) : result pyval :=
  match path with
  | [] => Ok d
  | key :: path =>
      if truthy d then
        d ← py_get d key PNone;
        walk_path d path
      else Ok d
  end.

(** [CodeGen.get_path] of a generator whose schema is [schema]. *)
Definition get_path (schema : pyval) (path : list string) (fallback : pyval) : result pyval :=
  d ← walk_path schema path;
  match d with
  | PNone => Ok fallback
  | _ => Ok d
  end.

(** The value found in [d] by taking the keys of [path] one after the
other, each in an object that has it. *)
Fixpoint at_path (d : pyval) (path : list string) : option pyval :=
  match path with
  | [] => Some d
  | key :: path =>
      match d with
      | PDict entries =>
          match assoc key entries with
          | Some v => at_path v path
          | None => None
          end
      | _ => None
      end
  end.

(** What [get_path] makes of the value at the end of the path. *)
Definition or_fallback (v fallback : pyval) : pyval :=
  match v with PNone => fallback | _ => v end.

(** The schema [{"queryType": {"name": "Query"}, "mutationType": "Mutation"}]. *)
Definition entry_points_document : pyval :=
  PDict [("queryType", PDict [("name", PStr "Query")]); ("mutationType", PStr "Mutation")].

(** ** The comparator *)

Lemma truthy_list_iter {A} (l : option (list A)) :
  truthy_list l = false -> iter_list l = [].
Proof. destruct l as [[|x l]|]; simpl; congruence. Qed.

(** C10: over two types that do not both list the other among their
    interfaces, [depend_cmp a b] is the negation of [depend_cmp b a]; the
    two interfaces [cyc_a] and [cyc_b], which implement each other, break
    the equation. *)
Theorem depend_cmp_antisymmetric :
  (forall a b, ~ mutual a b -> depend_cmp a b = - depend_cmp b a) /\
  (exists a b, mutual a b /\ depend_cmp a b <> - depend_cmp b a).
Proof.
  split.
  - intros a b Hm. unfold mutual in Hm. unfold depend_cmp.
    destruct (truthy_list (interfaces a)) eqn:Ha,
             (truthy_list (interfaces b)) eqn:Hb; simpl; try reflexivity.
    destruct (has_iface (iter_list (interfaces a)) (name b)) eqn:Hab,
             (has_iface (iter_list (interfaces b)) (name a)) eqn:Hba;
      repeat case_decide; try reflexivity; try lia.
    all: exfalso; apply Hm; split; reflexivity.
  - exists cyc_a, cyc_b. split; [split; reflexivity | vm_compute; discriminate].
Qed.

(** ** Sorting only rearranges *)

Lemma bisect_step {A} (lt : A -> A -> bool) (a : list A) (pivot : A) (k l r : nat) :
  bisect lt (S k) a pivot l r =
  if decide (l < r)%nat then
    match a !! (l + (r - l) / 2)%nat with
    | Some x => if lt pivot x then bisect lt k a pivot l (l + (r - l) / 2)
                else bisect lt k a pivot (S (l + (r - l) / 2)) r
    | None => l
    end
  else l.
Proof. reflexivity. Qed.

(** The binary search never runs out of fuel: more of it changes nothing. *)
Lemma bisect_fuel_enough {A} (lt : A -> A -> bool) (a : list A) (pivot : A)
    (fuel l r : nat) :
  (r - l < fuel)%nat ->
  bisect lt (S fuel) a pivot l r = bisect lt fuel a pivot l r.
Proof.
  revert l r. induction fuel as [|k IH]; intros l r Hf; [lia|].
  rewrite (bisect_step lt a pivot (S k) l r), (bisect_step lt a pivot k l r).
  destruct (decide (l < r)%nat) as [Hlr|]; [|reflexivity].
  assert (Hhalf : ((r - l) / 2 < r - l)%nat) by (apply Nat.div_lt; lia).
  destruct (a !! (l + (r - l) / 2)%nat) as [x|]; [|reflexivity].
  destruct (lt pivot x); apply IH; lia.
Qed.

Lemma insert_pivot_perm {A} (lt : A -> A -> bool) (sorted : list A) (pivot : A) :
  insert_pivot lt sorted pivot ≡ₚ pivot :: sorted.
Proof.
  unfold insert_pivot.
  set (l := bisect _ _ _ _ _ _).
  rewrite <- Permutation_middle.
  now rewrite take_drop.
Qed.

Lemma binarysort_perm {A} (lt : A -> A -> bool) (rest sorted : list A) :
  binarysort lt sorted rest ≡ₚ sorted ++ rest.
Proof.
  unfold binarysort. revert sorted.
  induction rest as [|x rest IH]; intros sorted; simpl.
  - now rewrite app_nil_r.
  - rewrite IH, insert_pivot_perm. now rewrite <- Permutation_middle.
Qed.

Lemma list_sort_perm {A} (lt : A -> A -> bool) (l : list A) :
  list_sort lt l ≡ₚ l.
Proof.
  unfold list_sort.
  destruct l as [|x [|y l]]; try reflexivity.
  destruct (count_run lt (x :: y :: l)) as [n descending].
  rewrite binarysort_perm.
  transitivity (take n (x :: y :: l) ++ drop n (x :: y :: l));
    [| now rewrite take_drop].
  apply Permutation_app_tail.
  destruct descending; [symmetry; apply Permutation_rev | reflexivity].
Qed.


(** ** Running the generator monad *)

Lemma bind_run {A B} (m : gen A) (f : A -> gen B) (st : GenState) :
  (m ≫= f) st =
  match m st with
  | (Ok a, st') => f a st'
  | (Raise e, st') => (Raise e, st')
  end.
Proof. reflexivity. Qed.

Lemma write_banner_run (text : string) (st : GenState) :
  exists chunk, write_banner text st = (Ok (), mkState (written_types st) (output st ++ [chunk])).
Proof. unfold write_banner, writer. eauto. Qed.

(** ** Classification *)

Lemma phase_run (mapper : string -> option (IntrospectionType -> gen unit))
    (kinds : list string)
    (mapper_kinds : forall k, mapper k = None <-> str_in k kinds = false)
    (todo remaining : list IntrospectionType) (st : GenState) :
  phase mapper todo remaining st =
  match for_each (dispatch mapper) (List.filter (kind_in kinds) todo) st with
  | (Ok _, st') => (Ok (remaining ++ List.filter (other kinds) todo), st')
  | (Raise e, st') => (Raise e, st')
  end.
Proof.
  revert remaining st.
  induction todo as [|t rest IH]; intros remaining st; simpl.
  - now rewrite app_nil_r.
  - unfold other, kind_in in *.
    destruct (mapper (kind t)) as [mapped|] eqn:Hm.
    + destruct (str_in (kind t) kinds) eqn:Hk.
      * simpl. rewrite !bind_run. unfold dispatch at 1. rewrite Hm.
        destruct (mapped t st) as [[[]|e] st1]; [apply IH | reflexivity].
      * apply mapper_kinds in Hk. congruence.
    + pose proof (proj1 (mapper_kinds _) Hm) as Hk. rewrite Hk. simpl.
      rewrite IH. destruct (for_each _ _ st) as [[[]|e] st1]; [|reflexivity].
      now rewrite <- app_assoc.
Qed.

Ltac solve_mapper_kinds :=
  let Hn := fresh "Hn" in
  rewrite bool_decide_eq_false;
  repeat match goal with
         | |- context [decide (?x = ?y)] =>
             destruct (decide (x = y)) as [->|?];
             [split; [discriminate | intros Hn; exfalso; apply Hn; repeat constructor] |]
         end;
  split; [intros _ Hn | reflexivity];
  repeat (apply elem_of_cons in Hn as [Hn|Hn]; [congruence |]);
  now apply elem_of_nil in Hn.

Lemma mapper_basic_kinds (self : CodeGen) (k : string) :
  mapper_basic self k = None <-> str_in k basic_kinds = false.
Proof.
  unfold mapper_basic, str_in, basic_kinds.
  solve_mapper_kinds.
Qed.

Lemma mapper_input_containers_kinds (self : CodeGen) (k : string) :
  mapper_input_containers self k = None <-> str_in k input_kinds = false.
Proof.
  unfold mapper_input_containers, str_in, input_kinds.
  solve_mapper_kinds.
Qed.

Lemma mapper_output_containers_kinds (self : CodeGen) (k : string) :
  mapper_output_containers self k = None <-> str_in k output_kinds = false.
Proof.
  unfold mapper_output_containers, str_in, output_kinds.
  solve_mapper_kinds.
Qed.

Lemma mapper_post_kinds (self : CodeGen) (k : string) :
  mapper_post self k = None <-> str_in k post_kinds = false.
Proof.
  unfold mapper_post, str_in, post_kinds.
  solve_mapper_kinds.
Qed.

(** [write_types] is the four phases over the buckets of [classify],
    closed by the assertion that nothing is left. *)
Lemma write_types_run (self : CodeGen) (st : GenState) :
  write_types self st =
  (emit_buckets self (classify (self_types self));;
   match unclaimed (classify (self_types self)) with
   | [] => mret ()
   | _ => raise (AssertionError [])
   end) st.
Proof.
  unfold write_types, emit_buckets, classify; simpl.
  rewrite !bind_run.
  destruct (write_banner_run "Scalars and Enumerations" st) as [c1 ->].
  rewrite !bind_run.
  rewrite (phase_run (mapper_basic self) basic_kinds (mapper_basic_kinds self)).
  destruct (for_each _ _ _) as [[[]|e] st1]; [|reflexivity].
  rewrite !bind_run.
  destruct (write_banner_run "Input Objects" st1) as [c2 ->].
  rewrite !bind_run.
  rewrite (phase_run (mapper_input_containers self) input_kinds
             (mapper_input_containers_kinds self)).
  destruct (for_each _ _ _) as [[[]|e] st2]; [|reflexivity].
  rewrite !bind_run.
  destruct (write_banner_run "Output Objects and Interfaces" st2) as [c3 ->].
  rewrite !bind_run.
  rewrite (phase_run (mapper_output_containers self) output_kinds
             (mapper_output_containers_kinds self)).
  destruct (for_each _ _ _) as [[[]|e] st3]; [|reflexivity].
  rewrite !bind_run.
  destruct (write_banner_run "Unions" st3) as [c4 ->].
  rewrite !bind_run.
  rewrite (phase_run (mapper_post self) post_kinds (mapper_post_kinds self)).
  destruct (for_each _ _ _) as [[[]|e] st4]; reflexivity.
Qed.

Lemma filter_split {A} (p : A -> bool) (l : list A) :
  l ≡ₚ List.filter p l ++ List.filter (fun x => negb (p x)) l.
Proof.
  induction l as [|x l IH]; simpl; [reflexivity|].
  destruct (p x); simpl.
  - now constructor.
  - now rewrite <- Permutation_middle; constructor.
Qed.

Lemma str_in_cons (s x : string) (l : list string) :
  str_in s (x :: l) = (bool_decide (s = x) || str_in s l)%bool.
Proof.
  unfold str_in. apply eq_true_iff_eq.
  rewrite orb_true_iff, !bool_decide_eq_true, elem_of_cons. reflexivity.
Qed.

Lemma str_in_nil (s : string) : str_in s [] = false.
Proof. unfold str_in. apply bool_decide_eq_false, not_elem_of_nil. Qed.

Lemma known_kinds_split (t : IntrospectionType) :
  kind_in known_kinds t =
  (kind_in basic_kinds t || kind_in input_kinds t ||
   kind_in output_kinds t || kind_in post_kinds t)%bool.
Proof.
  unfold kind_in, known_kinds, basic_kinds, input_kinds, output_kinds, post_kinds.
  rewrite !str_in_cons, !str_in_nil.
  repeat match goal with |- context [bool_decide ?P] => destruct (bool_decide P) end;
    reflexivity.
Qed.

Lemma classify_perm (ts : list IntrospectionType) :
  let b := classify ts in
  ts ≡ₚ scalars_enums b ++ input_objects b ++ objects_interfaces b ++ unions b ++ unclaimed b.
Proof.
  unfold classify; simpl.
  set (r1 := List.filter (other basic_kinds) ts).
  set (r2 := list_sort depend_lt (List.filter (other input_kinds) r1)).
  set (r3 := List.filter (other output_kinds) r2).
  rewrite <- (filter_split (kind_in post_kinds) r3).
  unfold r3. rewrite <- (filter_split (kind_in output_kinds) r2).
  unfold r2. rewrite list_sort_perm.
  rewrite <- (filter_split (kind_in input_kinds) r1).
  unfold r1. apply filter_split.
Qed.

Lemma unclaimed_spec (ts : list IntrospectionType) (t : IntrospectionType) :
  In t (unclaimed (classify ts)) <-> In t ts /\ kind_in known_kinds t = false.
Proof.
  unfold classify; simpl.
  rewrite known_kinds_split, !orb_false_iff.
  rewrite !filter_In. unfold other.
  split.
  - intros [[Ht Ho] Hp].
    apply (Permutation_in _ (list_sort_perm _ _)) in Ht.
    rewrite !filter_In in Ht. destruct Ht as [[Ht Hb] Hi].
    rewrite negb_true_iff in *. tauto.
  - intros [Ht [[[Hb Hi] Ho] Hp]]. rewrite !negb_true_iff.
    repeat split; try assumption.
    apply (Permutation_in _ (Permutation_sym (list_sort_perm _ _))).
    rewrite !filter_In, !negb_true_iff. tauto.
Qed.

(** C6: [write_types] runs the four phases over the buckets of
    [classify], which together with the unclaimed rest hold every type
    once, each bucket only the kinds of its phase; when every kind is one of the six known ones nothing is left
    unclaimed and the closing assertion is passed, and a type of any
    other kind is left unclaimed, so that the run ends in an exception. *)
Theorem classification_total (self : CodeGen) (st : GenState) :
  let b := classify (self_types self) in
  self_types self ≡ₚ
    scalars_enums b ++ input_objects b ++ objects_interfaces b ++ unions b ++ unclaimed b /\
  (Forall (fun t => kind_in basic_kinds t = true) (scalars_enums b) /\
   Forall (fun t => kind_in input_kinds t = true) (input_objects b) /\
   Forall (fun t => kind_in output_kinds t = true) (objects_interfaces b) /\
   Forall (fun t => kind_in post_kinds t = true) (unions b)) /\
  write_types self st =
    (emit_buckets self b;;
     match unclaimed b with [] => mret () | _ => raise (AssertionError []) end) st /\
  (Forall known_kind (self_types self) ->
     unclaimed b = [] /\ write_types self st = emit_buckets self b st) /\
  (Exists (fun t => ~ known_kind t) (self_types self) ->
     unclaimed b <> [] /\ exists e, (write_types self st).1 = Raise e).
Proof.
  intros b. split; [apply classify_perm|].
  split.
  { repeat split; apply Forall_forall; intros t Ht;
      apply list_elem_of_In, filter_In in Ht; apply Ht. }
  split; [apply write_types_run|]. split.
  - intros Hall.
    assert (Hnil : unclaimed b = []).
    { destruct (unclaimed b) as [|t r] eqn:Hu; [reflexivity|]. exfalso.
      assert (Hin : In t (unclaimed (classify (self_types self)))) by (fold b; rewrite Hu; now left).
      apply unclaimed_spec in Hin as [Hin Hk].
      rewrite Forall_forall in Hall. apply list_elem_of_In, Hall in Hin.
      unfold known_kind in Hin. congruence. }
    split; [assumption|].
    rewrite write_types_run. fold b. rewrite Hnil, bind_run.
    destruct (emit_buckets self b st) as [[[]|e] st']; reflexivity.
  - intros Hex. apply Exists_exists in Hex as [t [Hin Hk]].
    assert (Hne : unclaimed b <> []).
    { intros Hnil.
      assert (Hu : In t (unclaimed (classify (self_types self)))).
      { apply unclaimed_spec. split; [now apply list_elem_of_In|].
        unfold known_kind in Hk. now destruct (kind_in known_kinds t). }
      fold b in Hu. rewrite Hnil in Hu. destruct Hu. }
    split; [assumption|].
    rewrite write_types_run. fold b. rewrite bind_run.
    destruct (emit_buckets self b st) as [[[]|e] st']; [|eauto].
    destruct (unclaimed b); [congruence|]. eexists; reflexivity.
Qed.

(** ** Literal evaluator *)

Section ValueNodeInduction.
Variable P : value_node -> Prop.
Hypothesis H_int : forall value, P (IntValue value).
Hypothesis H_float : forall value, P (FloatValue value).
Hypothesis H_string : forall value, P (StringValue value).
Hypothesis H_boolean : forall value, P (BooleanValue value).
Hypothesis H_enum : forall value, P (EnumValue value).
Hypothesis H_null : P NullValue.
Hypothesis H_list : forall values, Forall P values -> P (ListValue values).
Hypothesis H_object :
  forall fields, Forall (fun f => P (field_value f)) fields -> P (ObjectValue fields).

Fixpoint value_node_induction (n : value_node) : P n :=
  match n with
  | IntValue value => H_int value
  | FloatValue value => H_float value
  | StringValue value => H_string value
  | BooleanValue value => H_boolean value
  | EnumValue value => H_enum value
  | NullValue => H_null
  | ListValue values =>
      H_list values
        ((fix go (l : list value_node) : Forall P l :=
            match l with
            | [] => @List.Forall_nil _ P
            | x :: r => @List.Forall_cons _ P x r (value_node_induction x) (go r)
            end) values)
  | ObjectValue fields =>
      H_object fields
        ((fix go (l : list object_field) : Forall (fun f => P (field_value f)) l :=
            match l with
            | [] => @List.Forall_nil _ _
            | ObjectField k v :: r =>
                @List.Forall_cons _ (fun f => P (field_value f)) (ObjectField k v) r
                  (value_node_induction v) (go r)
            end) fields)
  end.
End ValueNodeInduction.

Lemma mapM_result_ext {A B} (f g : A -> result B) (l : list A) :
  Forall (fun x => f x = g x) l -> mapM f l = mapM g l.
Proof.
  induction 1 as [|x l Hx _ IH]; [reflexivity|].
  cbn. rewrite Hx. destruct (g x); cbn; [|reflexivity]. now rewrite IH.
Qed.

Lemma py_dict_from_pairs (fields : list object_field) (acc : list (string * pyval)) :
  (ps ← mapM (fun field =>
                let 'ObjectField name value := field in
                value ← evaluate value;
                leave_ObjectField JSONOutputVisitor name value) fields;
   py_dict_from acc ps) =
  ((fun pairs => PDict (foldl (fun d kv => dict_set d kv.1 kv.2) acc pairs)) <$>
     mapM (fun field =>
             let 'ObjectField key value := field in
             y ← evaluate value; Ok (key, y)) fields).
Proof.
  revert acc. induction fields as [|[k v] fields IH]; intros acc; [reflexivity|].
  cbn. destruct (evaluate v) as [y|e]; cbn; [|reflexivity].
  specialize (IH (dict_set acc k y)).
  destruct (mapM _ fields) as [ps|e]; cbn in *;
    destruct (mapM _ fields) as [qs|e']; cbn in *; congruence.
Qed.

Lemma visit_node_evaluate (n : value_node) :
  visit_node JSONOutputVisitor n = evaluate n.
Proof.
  induction n as [value|value|value|value|value| |values IH|fields IH]
    using value_node_induction; try reflexivity.
  - cbn. rewrite (mapM_result_ext _ _ _ IH).
    now destruct (mapM evaluate values).
  - cbn.
    rewrite (mapM_result_ext _
               (fun field =>
                  let 'ObjectField name value := field in
                  value ← evaluate value;
                  leave_ObjectField JSONOutputVisitor name value)).
    + apply (py_dict_from_pairs fields []).
    + eapply Forall_impl; [exact IH|]. intros [k v] Hv; cbn in *. now rewrite Hv.
Qed.

Lemma dict_set_fresh {V} (d : list (string * V)) (k : string) (v : V) :
  k ∉ d.*1 -> dict_set d k v = d ++ [(k, v)].
Proof.
  induction d as [|[k' v'] d IH]; cbn; intros Hk; [reflexivity|].
  rewrite not_elem_of_cons in Hk. destruct Hk as [Hne Hk].
  destruct (decide (k = k')); [congruence|]. now rewrite IH.
Qed.

Lemma ordered_mapping_from (pairs acc : list (string * pyval)) :
  NoDup (acc ++ pairs).*1 ->
  foldl (fun d kv => dict_set d kv.1 kv.2) acc pairs = acc ++ pairs.
Proof.
  revert acc. induction pairs as [|[k v] pairs IH]; intros acc Hnd; cbn.
  - now rewrite app_nil_r.
  - rewrite dict_set_fresh.
    + rewrite IH; rewrite <- app_assoc; [reflexivity | exact Hnd].
    + rewrite fmap_app in Hnd. apply NoDup_app in Hnd as (_ & Hd & _).
      intros Hin. apply (Hd k Hin). cbn. now left.
Qed.

Lemma ordered_mapping_distinct (pairs : list (string * pyval)) :
  NoDup pairs.*1 -> ordered_mapping pairs = PDict pairs.
Proof. intros Hnd. unfold ordered_mapping. now rewrite ordered_mapping_from. Qed.

(** C3: [parse_graphql_value_to_json] returns the evaluation of the tree
    the literal parses to: integers, floats, text, booleans and null map
    to the native scalar, an enum value to its name, a list to the list of
    its evaluated items and an object to the mapping of its evaluated
    fields, which for distinct keys holds the pairs in the order written;
    so for the trees of 42, 3.14, "hi", true, null, [1,2,3],
    {a: 1, b: "x"} and SOME_ENUM_VALUE. *)
Theorem literal_evaluation :
  (forall source,
     parse_graphql_value_to_json source = parse_graphql_value source ≫= evaluate) /\
  (forall text, evaluate (IntValue text) = PInt <$> py_int text) /\
  (forall text, evaluate (FloatValue text) = Ok (PFloat (float text))) /\
  (forall text, evaluate (StringValue text) = Ok (PStr text)) /\
  (forall b, evaluate (BooleanValue b) = Ok (PBool b)) /\
  evaluate NullValue = Ok PNone /\
  (forall name, evaluate (EnumValue name) = Ok (PStr name)) /\
  (forall items, evaluate (ListValue items) = PList <$> mapM evaluate items) /\
  (forall fields pairs,
     NoDup (map field_key fields) ->
     mapM (fun f => y ← evaluate (field_value f); Ok (field_key f, y)) fields = Ok pairs ->
     evaluate (ObjectValue fields) = Ok (PDict pairs)) /\
  evaluate (IntValue "42") = Ok (PInt 42) /\
  evaluate (FloatValue "3.14") = Ok (PFloat (float "3.14")) /\
  evaluate (StringValue "hi") = Ok (PStr "hi") /\
  evaluate (BooleanValue true) = Ok (PBool true) /\
  evaluate list_1_2_3 = Ok (PList [PInt 1; PInt 2; PInt 3]) /\
  evaluate object_a_b = Ok (PDict [("a", PInt 1); ("b", PStr "x")]) /\
  evaluate (EnumValue "SOME_ENUM_VALUE") = Ok (PStr "SOME_ENUM_VALUE").
Proof.
  split.
  { intros source. unfold parse_graphql_value_to_json, visit.
    destruct (parse_graphql_value source) as [n|e]; cbn; [|reflexivity].
    rewrite visit_node_evaluate. now destruct (evaluate n). }
  split. { intros text. cbn. now destruct (py_int text). }
  repeat (split; [reflexivity|]).
  split.
  { intros fields pairs Hnd Hpairs. cbn.
    assert (Hsame : mapM (fun field => let 'ObjectField key value := field in
                                       y ← evaluate value; Ok (key, y)) fields = Ok pairs).
    { rewrite <- Hpairs. apply mapM_result_ext, Forall_forall. now intros [k v] _. }
    rewrite Hsame. cbn. f_equal. apply ordered_mapping_distinct.
    assert (Hkeys : pairs.*1 = map field_key fields).
    { clear Hsame Hnd. revert pairs Hpairs.
      induction fields as [|f fields IH]; intros pairs Hpairs; cbn in Hpairs.
      - now injection Hpairs as <-.
      - destruct (evaluate (field_value f)) as [y|]; cbn in Hpairs; [|discriminate].
        destruct (mapM _ fields) as [ps|]; cbn in Hpairs; [|discriminate].
        injection Hpairs as <-. cbn. f_equal. now apply IH. }
    now rewrite Hkeys. }
  repeat split; reflexivity.
Qed.

(** ** Reference resolver *)

Lemma length_append (a b : string) :
  String.length (a +:+ b) = (String.length a + String.length b)%nat.
Proof. induction a as [|c a IH]; simpl; [reflexivity | now f_equal]. Qed.

Lemma repr_char_length (q c : ascii) : (1 <= String.length (repr_char q c))%nat.
Proof.
  unfold repr_char.
  repeat match goal with |- context [if ?b then _ else _] => destruct b end; cbn; lia.
Qed.

Lemma repr_body_length (q : ascii) (s : string) :
  (String.length s + 1 <=
   String.length (fold_right (fun c acc => repr_char q c +:+ acc) (String q "") (str_chars s)))%nat.
Proof.
  unfold str_chars. induction s as [|c s IH]; simpl; [lia|].
  rewrite length_append. pose proof (repr_char_length q c). lia.
Qed.

Lemma py_repr_length (s : string) : (String.length s + 2 <= String.length (py_repr s))%nat.
Proof.
  unfold py_repr.
  destruct (has_char "'" s && negb (has_char dquote s))%bool; simpl;
    match goal with |- context [fold_right _ (String ?q _) _] =>
      pose proof (repr_body_length q s) end; lia.
Qed.

Lemma py_repr_differs (s : string) : py_repr s <> s.
Proof. intros H. pose proof (py_repr_length s) as Hl. rewrite H in Hl. lia. Qed.

Lemma get_type_ref_wrap (written siblings : gset string) (ws : list wrapper) (t : TypeRef) :
  get_type_ref written (wrap ws t) siblings =
  (fun r => foldr wrapper_text r ws) <$> get_type_ref written t siblings.
Proof.
  induction ws as [|w ws IH]; cbn [wrap foldr].
  - now destruct (get_type_ref written t siblings).
  - fold (wrap ws t).
    destruct w; cbn [get_type_ref wrapper_kind]; fold get_type_ref;
      repeat case_decide; try congruence; rewrite IH;
      now destruct (get_type_ref written t siblings).
Qed.

(** C4: [get_type_ref] turns NON_NULL and LIST into the non-null and
    list wrappers around the resolution of the wrapped type, through any
    number of wrappers; a named type of another kind resolves to its bare
    name exactly when the name is in [written] and not among the
    siblings, and to the quoted name otherwise; so NON_NULL of LIST of
    NON_NULL of String is the three wrappers around one of the two
    references to String, whatever has been written. *)
Theorem reference_resolution (written siblings : gset string) :
  (forall name inner,
     get_type_ref written (mkTypeRef "NON_NULL" name (Some inner)) siblings =
     wrapper_text NonNull <$> get_type_ref written inner siblings) /\
  (forall name inner,
     get_type_ref written (mkTypeRef "LIST" name (Some inner)) siblings =
     wrapper_text ListOf <$> get_type_ref written inner siblings) /\
  (forall ws t,
     get_type_ref written (wrap ws t) siblings =
     (fun r => foldr wrapper_text r ws) <$> get_type_ref written t siblings) /\
  (forall kind name ofType,
     kind <> "NON_NULL" -> kind <> "LIST" ->
     (get_type_ref written (mkTypeRef kind (Some name) ofType) siblings = Ok name <->
      name ∈ written /\ name ∉ siblings) /\
     (get_type_ref written (mkTypeRef kind (Some name) ofType) siblings = Ok (py_repr name) <->
      ~ (name ∈ written /\ name ∉ siblings))) /\
  get_type_ref written (wrap [NonNull; ListOf; NonNull] string_ref) siblings =
    Ok ("sgqlc.types.non_null(sgqlc.types.list_of(sgqlc.types.non_null(" +:+
        (if bool_decide ("String" ∈ written /\ "String" ∉ siblings)
         then "String" else "'String'") +:+ ")))").
Proof.
  split; [|split; [|split; [|split]]].
  - intros name inner. cbn. now destruct (get_type_ref written inner siblings).
  - intros name inner. cbn. now destruct (get_type_ref written inner siblings).
  - intros ws t. apply get_type_ref_wrap.
  - intros kind name ofType Hn Hl. cbn.
    destruct (decide (kind = "NON_NULL")); [congruence|].
    destruct (decide (kind = "LIST")); [congruence|].
    pose proof (py_repr_differs name) as Hd.
    destruct (bool_decide (name ∈ written)) eqn:Hw;
      destruct (bool_decide (name ∈ siblings)) eqn:Hs; cbn;
      try apply bool_decide_eq_true in Hw; try apply bool_decide_eq_false in Hw;
      try apply bool_decide_eq_true in Hs; try apply bool_decide_eq_false in Hs;
      (split; split; intros He);
      first [reflexivity | tauto | injection He as He; congruence | exfalso; tauto].
  - rewrite get_type_ref_wrap. cbn.
    destruct (bool_decide ("String" ∈ written)) eqn:Hw;
      destruct (bool_decide ("String" ∈ siblings)) eqn:Hs; cbn;
      try apply bool_decide_eq_true in Hw; try apply bool_decide_eq_false in Hw;
      try apply bool_decide_eq_true in Hs; try apply bool_decide_eq_false in Hs;
      (rewrite bool_decide_eq_true_2 by tauto) || (rewrite bool_decide_eq_false_2 by tauto);
      reflexivity.
Qed.

(** ** Schema loader *)

Lemma load_schema_truthy_types (d : list (string * pyval)) :
  truthy (get d "types") = true -> load_schema (PDict d) = Ok (PDict d).
Proof. intros H. unfold load_schema. cbn. fold (get d "types"). now rewrite H. Qed.

Lemma load_schema_no_types (d : list (string * pyval)) :
  truthy (get d "types") = false -> data_usable d ->
  load_schema (PDict d) =
  if truthy (data_schema d) then Ok (data_schema d)
  else if truthy (get d "__schema") then Ok (get d "__schema")
  else Raise (SystemExit no_shape).
Proof.
  intros Ht Hd. unfold load_schema. cbn. fold (get d "types"). rewrite Ht.
  unfold data_usable, data_schema, get in *.
  destruct (assoc "data" d) as [[| | | | | | |data]|] eqn:Hdata; try contradiction; cbn.
  - destruct (assoc "__schema" data) as [inner|] eqn:Hi; cbn.
    + destruct (truthy inner); [reflexivity|].
      destruct (assoc "__schema" d) as [s|]; cbn; [|reflexivity].
      now destruct (truthy s).
    + destruct (assoc "__schema" d) as [s|]; cbn; [|reflexivity].
      now destruct (truthy s).
  - destruct (assoc "__schema" d) as [s|]; cbn; [|reflexivity].
    now destruct (truthy s).
Qed.

(** C5, as amended: a document that is no object is refused; an object
    whose [types] value is truthy is returned as it is; otherwise, when
    [data] is absent or an object, a truthy [data.__schema] is returned,
    else a truthy [__schema], and the document is refused exactly when
    none of the three values is truthy; a refused document leaves [main]
    with the exception and nothing written. *)
Theorem load_schema_shapes (document : pyval) :
  ((forall d, document <> PDict d) ->
     load_schema document = Raise (SystemExit not_an_object)) /\
  (forall d, document = PDict d ->
     (truthy (get d "types") = true -> load_schema document = Ok document) /\
     (truthy (get d "types") = false -> data_usable d ->
        (truthy (data_schema d) = true -> load_schema document = Ok (data_schema d)) /\
        (truthy (data_schema d) = false -> truthy (get d "__schema") = true ->
           load_schema document = Ok (get d "__schema")) /\
        (schema_format_error (load_schema document) <->
           truthy (data_schema d) = false /\ truthy (get d "__schema") = false))) /\
  (forall e schema_name,
     load_schema document = Raise e ->
     main schema_name document initial_state = (Raise e, initial_state)).
Proof.
  split; [|split].
  - intros Hno. destruct document; try reflexivity. now destruct (Hno entries).
  - intros d ->. split; [apply load_schema_truthy_types|].
    intros Ht Hd. rewrite (load_schema_no_types d Ht Hd).
    unfold schema_format_error.
    destruct (truthy (data_schema d)), (truthy (get d "__schema"));
      (split; [|split; [|split]]); intros;
      repeat match goal with
             | H : exists _, _ |- _ => destruct H
             | H : _ /\ _ |- _ => destruct H
             end;
      try congruence; try reflexivity; try (split; reflexivity).
    eexists; reflexivity.
  - intros e schema_name He. unfold main. rewrite bind_run. unfold lift. now rewrite He.
Qed.

(** C9: an object whose [types] is the empty list, with no [__schema] of
    its own and none under [data], is refused with the schema-format
    message. *)
Theorem empty_types_rejected (d : list (string * pyval)) :
  assoc "types" d = Some (PList []) ->
  match assoc "data" d with
  | None => True
  | Some (PDict data) => assoc "__schema" data = None
  | Some _ => False
  end ->
  assoc "__schema" d = None ->
  load_schema (PDict d) = Raise (SystemExit no_shape).
Proof.
  intros Ht Hd Hs.
  rewrite load_schema_no_types.
  - unfold data_schema, get. rewrite Hs.
    destruct (assoc "data" d) as [[| | | | | | |data]|]; try contradiction; [|reflexivity].
    now rewrite Hd.
  - unfold get. now rewrite Ht.
  - unfold data_usable. destruct (assoc "data" d) as [[]|]; tauto.
Qed.

(** ** Argument defaults *)

(** C8: for an argument whose type resolves, the line written carries
    [None] when there is no default value, and nothing is evaluated; the
    variable named by the text after the dollar sign when the default
    starts with one; and otherwise the [repr] of the value the literal
    evaluates to, the evaluator's exception ending the run when it raises
    one. *)
Theorem argument_default (arg : Arg) (siblings : gset string) (st : GenState) (tref : string) :
  get_type_ref (written_types st) (arg_type arg) siblings = Ok tref ->
  (arg_defaultValue arg = None ->
     write_arg arg siblings st = writer (arg_line arg tref "None") st) /\
  (forall text,
     arg_defaultValue arg = Some text -> startswith text "$" = true ->
     write_arg arg siblings st =
     writer (arg_line arg tref ("sgqlc.types.Variable(" +:+ py_repr (str_tail text) +:+ ")")) st) /\
  (forall text,
     arg_defaultValue arg = Some text -> text <> "" -> startswith text "$" = false ->
     write_arg arg siblings st =
     match parse_graphql_value_to_json text with
     | Ok v => writer (arg_line arg tref (repr_value v)) st
     | Raise e => (Raise e, st)
     end).
Proof.
  intros Href.
  assert (Hrun : forall k : string -> gen unit,
             (type_ref (arg_type arg) siblings ≫= k) st = k tref st).
  { intros k. unfold type_ref. rewrite !bind_run. unfold get_written, lift. now rewrite Href. }
  unfold write_arg. rewrite Hrun. split; [|split].
  - intros ->. reflexivity.
  - intros text -> Hs.
    destruct text as [|c text]; [discriminate|].
    rewrite bind_run. cbn [String.eqb]. rewrite Hs. reflexivity.
  - intros text -> Hne Hs.
    rewrite bind_run.
    destruct (String.eqb text "") eqn:He; [apply String.eqb_eq in He; congruence|].
    rewrite Hs, bind_run. unfold lift.
    now destruct (parse_graphql_value_to_json text).
Qed.

(** ** Own fields of an object *)

Lemma object_interfaces_inherited (self : CodeGen) (written : gset string)
    (ifaces : list TypeRef) (bases : list string) (inherited : gset string)
    (bases' : list string) (inherited' : gset string) :
  object_interfaces self written ifaces bases inherited = Ok (bases', inherited') ->
  forall n,
    n ∈ inherited' <->
    n ∈ inherited \/
    exists iface iface_name i iface_fields,
      iface ∈ ifaces /\ ref_name iface = Some iface_name /\
      self_type_by_name self !! iface_name = Some i /\
      fields i = Some iface_fields /\ n ∈ map field_name iface_fields.
Proof.
  revert bases inherited.
  induction ifaces as [|iface rest IH]; intros bases inherited Hrun n; cbn in Hrun.
  - injection Hrun as <- <-. split; [now left|].
    intros [H|(iface & ? & ? & ? & Hin & _)]; [assumption|].
    now apply elem_of_nil in Hin.
  - destruct (ref_name iface) as [iface_name|] eqn:Hname; [|discriminate].
    destruct (bool_decide (iface_name ∈ written)); [|discriminate].
    destruct (self_type_by_name self !! iface_name) as [i|] eqn:Hi; [|discriminate].
    destruct (fields i) as [iface_fields|] eqn:Hf; [|discriminate].
    cbn in Hrun. rewrite (IH _ _ Hrun n), elem_of_union, elem_of_list_to_set.
    split.
    + intros [[H|H]|(x & xn & xi & xf & Hin & Hrest)].
      * now left.
      * right. exists iface, iface_name, i, iface_fields.
        repeat split; try assumption. now left.
      * right. exists x, xn, xi, xf. split; [now right | exact Hrest].
    + intros [H|(x & xn & xi & xf & Hin & Hxn & Hxi & Hxf & Hn)]; [now left; left|].
      apply elem_of_cons in Hin as [->|Hin].
      * left; right. congruence.
      * right. exists x, xn, xi, xf. tauto.
Qed.

(** C2: an object that is written is written as the container of its
    declared fields without those whose name is the name of a field of
    an implemented interface, the others kept in their order. *)
Theorem field_exclusivity (self : CodeGen) (t : IntrospectionType) (st st' : GenState) :
  str_in (name t) builtin_object_names = false ->
  write_type_object self t st = (Ok (), st') ->
  exists bases declared keep,
    fields t = Some declared /\
    (forall f, keep f = true <-> ~ declared_on_interface self t (field_name f)) /\
    write_type_object self t st =
      write_type_container self t bases (List.filter keep declared) write_field_output st.
Proof.
  intros Hb Hrun. unfold write_type_object in *. rewrite Hb in *.
  rewrite !bind_run in *. unfold get_written in *. rewrite !bind_run in *.
  unfold lift in *.
  destruct (object_interfaces self (written_types st) (iter_list (interfaces t)) _ ∅)
    as [[bases inherited]|e] eqn:Hi; [|discriminate].
  rewrite !bind_run in *.
  destruct (fields t) as [declared|] eqn:Hf; [|discriminate]. cbn [iter] in *.
  exists (join ", " bases), declared,
    (fun field => negb (bool_decide (field_name field ∈ inherited))).
  split; [reflexivity|]. split; [|reflexivity].
  intros f. rewrite negb_true_iff, bool_decide_eq_false.
  rewrite (object_interfaces_inherited _ _ _ _ _ _ _ Hi).
  unfold declared_on_interface. split.
  - intros Hn Hd. apply Hn. now right.
  - intros Hn [H|H]; [now apply not_elem_of_empty in H | now apply Hn].
Qed.

(** ** Emission state *)

Lemma keeps_ret {A} (a : A) : keeps (mret a : gen A).
Proof. intros st; cbn. split; [reflexivity|]. exists []. now rewrite app_nil_r. Qed.

Lemma keeps_raise {A} (e : exn) : keeps (raise e : gen A).
Proof. intros st; cbn. split; [reflexivity|]. exists []. now rewrite app_nil_r. Qed.

Lemma keeps_lift {A} (r : result A) : keeps (lift r).
Proof. intros st; cbn. split; [reflexivity|]. exists []. now rewrite app_nil_r. Qed.

Lemma keeps_get_written : keeps get_written.
Proof. intros st; cbn. split; [reflexivity|]. exists []. now rewrite app_nil_r. Qed.

Lemma keeps_writer (text : string) : keeps (writer text).
Proof. intros st; cbn. split; [reflexivity|]. now exists [text]. Qed.

Lemma keeps_bind {A B} (m : gen A) (f : A -> gen B) :
  keeps m -> (forall a, keeps (f a)) -> keeps (m ≫= f).
Proof.
  intros Hm Hf st. rewrite bind_run.
  destruct (Hm st) as [Hw [c1 Ho]].
  destruct (m st) as [[a|e] st1]; cbn in *.
  - destruct (Hf a st1) as [Hw' [c2 Ho']].
    split; [congruence|]. exists (c1 ++ c2). rewrite Ho', Ho. now rewrite app_assoc.
  - split; [assumption|]. now exists c1.
Qed.

Lemma keeps_for_each {A} (body : A -> gen unit) (xs : list A) :
  (forall x, keeps (body x)) -> keeps (for_each body xs).
Proof.
  intros Hb. induction xs as [|x xs IH]; cbn.
  - apply keeps_ret.
  - apply keeps_bind; [apply Hb | intros _; exact IH].
Qed.

Create HintDb keeps.
#[local] Hint Resolve keeps_ret keeps_raise keeps_lift keeps_get_written keeps_writer
  keeps_for_each : keeps.

Ltac keeps :=
  repeat first
    [ progress eauto with keeps
    | apply keeps_bind; [|intros ?]
    | match goal with
      | |- keeps (match ?x with _ => _ end) => destruct x
      | |- keeps (if ?b then _ else _) => destruct b
      end ].

Lemma keeps_write_banner (text : string) : keeps (write_banner text).
Proof. unfold write_banner. keeps. Qed.

Lemma keeps_type_ref (t : TypeRef) (siblings : gset string) : keeps (type_ref t siblings).
Proof. unfold type_ref. keeps. Qed.

#[local] Hint Resolve keeps_write_banner keeps_type_ref : keeps.

Lemma keeps_write_field_input (field : Field) (siblings : gset string) :
  keeps (write_field_input field siblings).
Proof. unfold write_field_input. keeps. Qed.

Lemma keeps_write_arg (arg : Arg) (siblings : gset string) : keeps (write_arg arg siblings).
Proof. unfold write_arg. keeps. Qed.

#[local] Hint Resolve keeps_write_field_input keeps_write_arg : keeps.

Lemma keeps_write_field_output (field : Field) (siblings : gset string) :
  keeps (write_field_output field siblings).
Proof. unfold write_field_output. keeps. Qed.

#[local] Hint Resolve keeps_write_field_output : keeps.

Lemma keeps_write_header (self : CodeGen) : keeps (write_header self).
Proof.
  unfold write_header, write_datetime_import, write_relay_import, write_relay_fixup. keeps.
Qed.

Lemma keeps_write_entry_points (self : CodeGen) : keeps (write_entry_points self).
Proof. unfold write_entry_points. keeps. Qed.

Lemma declares_written (name : string) (m : gen unit) :
  keeps m ->
  (forall st st', m st = (Ok (), st') -> output st' <> output st) ->
  declares name false (m;; add_written name).
Proof.
  intros Hk Hout st. rewrite bind_run.
  destruct (Hk st) as [Hw [chunks Ho]]. specialize (Hout st).
  destruct (m st) as [[[]|e] st1]; cbn in *; [|assumption].
  split; [now rewrite Hw|].
  exists chunks. split; [|assumption].
  intros ->. rewrite app_nil_r in Ho. now apply (Hout st1).
Qed.

Lemma writer_first (text : string) (m : gen unit) :
  keeps m ->
  forall st st', (writer text;; m) st = (Ok (), st') -> output st' <> output st.
Proof.
  intros Hk st st' Hrun. rewrite bind_run in Hrun. cbn in Hrun.
  destruct (Hk (mkState (written_types st) (output st ++ [text]))) as [_ [chunks Ho]].
  rewrite Hrun in Ho. cbn in Ho. rewrite Ho. intros Heq.
  apply (f_equal length) in Heq. rewrite !length_app in Heq. cbn in Heq. lia.
Qed.

Lemma declares_lift {A} (name : string) (r : result A) (k : A -> gen unit) :
  (forall a, declares name false (k a)) -> declares name false (lift r ≫= k).
Proof.
  intros Hk st. rewrite bind_run. unfold lift.
  destruct r as [a|e]; [apply Hk | reflexivity].
Qed.

Lemma seq_assoc (a b c d : gen unit) (st : GenState) :
  (a;; b;; c;; d) st = ((a;; b;; c);; d) st.
Proof.
  rewrite !bind_run. destruct (a st) as [[[]|e] st1]; [|reflexivity].
  rewrite !bind_run. destruct (b st1) as [[[]|e] st2]; [|reflexivity].
  rewrite !bind_run. now destruct (c st2) as [[[]|e] st3].
Qed.

Lemma declares_write_type_container (self : CodeGen) (t : IntrospectionType)
    (bases : string) (own_fields : list Field)
    (write_field : Field -> gset string -> gen unit) :
  (forall field siblings, keeps (write_field field siblings)) ->
  declares (name t) false (write_type_container self t bases own_fields write_field).
Proof.
  intros Hf. unfold write_type_container.
  destruct (get_py_fields_and_siblings own_fields) as [py_fields siblings].
  intros st.
  rewrite seq_assoc. revert st.
  apply (declares_written (name t)).
  - keeps.
  - apply writer_first. keeps.
Qed.

Lemma declares_write_type_input_object (self : CodeGen) (t : IntrospectionType) :
  declares (name t) false (write_type_input_object self t).
Proof.
  unfold write_type_input_object. apply declares_lift. intros own_fields.
  apply declares_write_type_container, keeps_write_field_input.
Qed.

Lemma declares_write_type_interface (self : CodeGen) (t : IntrospectionType) :
  declares (name t) false (write_type_interface self t).
Proof.
  unfold write_type_interface. apply declares_lift. intros own_fields.
  apply declares_write_type_container, keeps_write_field_output.
Qed.

Lemma declares_write_type_object (self : CodeGen) (t : IntrospectionType) :
  declares (name t) (str_in (name t) builtin_object_names) (write_type_object self t).
Proof.
  unfold write_type_object.
  destruct (str_in (name t) builtin_object_names); [intros st; reflexivity|].
  intros st. rewrite bind_run. unfold get_written.
  match goal with
  | |- context [(lift ?r ≫= ?k) st] => apply (declares_lift (name t) r k)
  end.
  intros [bases inherited_fields].
  apply declares_lift. intros declared.
  apply declares_write_type_container, keeps_write_field_output.
Qed.

Lemma declares_write_type_enum (self : CodeGen) (t : IntrospectionType) :
  declares (name t) (str_in (name t) builtin_enum_names) (write_type_enum self t).
Proof.
  unfold write_type_enum.
  destruct (str_in (name t) builtin_enum_names); [intros st; reflexivity|].
  apply declares_lift. intros values.
  apply declares_written; [keeps|].
  intros st st' [= <-]. cbn. intros Heq.
  apply (f_equal length) in Heq. rewrite length_app in Heq. cbn in Heq. lia.
Qed.

Lemma declares_write_type_scalar (self : CodeGen) (t : IntrospectionType) :
  declares (name t) false (write_type_scalar self t).
Proof.
  unfold write_type_scalar. intros st.
  match goal with
  | |- context [(?a;; ?b;; ?c) st] =>
      assert (Hassoc : (a;; b;; c) st = ((a;; b);; c) st)
  end.
  { rewrite !bind_run.
    destruct (str_in (name t) builtin_types); [reflexivity|].
    destruct (str_in (name t) datetime_types); reflexivity. }
  rewrite Hassoc. clear Hassoc. revert st. apply (declares_written (name t)).
  - keeps.
  - destruct (str_in (name t) builtin_types); [apply writer_first; keeps|].
    destruct (str_in (name t) datetime_types); apply writer_first; keeps.
Qed.

Lemma declares_write_type_union (self : CodeGen) (t : IntrospectionType) :
  declares (name t) false (write_type_union self t).
Proof.
  unfold write_type_union. apply declares_lift. intros possible_types.
  apply declares_lift. intros names.
  apply declares_written; [keeps|].
  intros st st' [= <-]. cbn. intros Heq.
  apply (f_equal length) in Heq. rewrite length_app in Heq. cbn in Heq. lia.
Qed.

Lemma declares_grows (name : string) (skipped : bool) (m : gen unit) :
  declares name skipped m -> grows m.
Proof.
  intros Hd st. specialize (Hd st).
  destruct (m st) as [[[]|e] st']; cbn.
  - destruct skipped; [now subst|]. destruct Hd as [-> _]. apply union_subseteq_r.
  - now rewrite Hd.
Qed.

Lemma keeps_grows {A} (m : gen A) : keeps m -> grows m.
Proof. intros Hk st. destruct (Hk st) as [-> _]. reflexivity. Qed.

Lemma grows_bind {A B} (m : gen A) (f : A -> gen B) :
  grows m -> (forall a, grows (f a)) -> grows (m ≫= f).
Proof.
  intros Hm Hf st. rewrite bind_run. specialize (Hm st).
  destruct (m st) as [[a|e] st1]; cbn in *; [|assumption].
  etransitivity; [exact Hm | apply Hf].
Qed.

Lemma grows_phase (mapper : string -> option (IntrospectionType -> gen unit))
    (todo remaining : list IntrospectionType) :
  (forall k mapped t, mapper k = Some mapped -> grows (mapped t)) ->
  grows (phase mapper todo remaining).
Proof.
  intros Hm. revert remaining.
  induction todo as [|t rest IH]; intros remaining; cbn.
  - apply keeps_grows, keeps_ret.
  - destruct (mapper (kind t)) as [mapped|] eqn:Hk; [|apply IH].
    apply grows_bind; [eapply Hm; eassumption | intros _; apply IH].
Qed.

Lemma grows_write_types (self : CodeGen) : grows (write_types self).
Proof.
  unfold write_types.
  repeat (apply grows_bind; [|intros ?]);
    try (apply keeps_grows, keeps_write_banner);
    try (apply grows_phase; intros k mapped t;
         unfold mapper_basic, mapper_input_containers, mapper_output_containers, mapper_post;
         repeat case_decide; intros [= <-];
         eauto using declares_grows, declares_write_type_enum, declares_write_type_scalar,
           declares_write_type_input_object, declares_write_type_interface,
           declares_write_type_object, declares_write_type_union).
  apply keeps_grows. keeps.
Qed.

(** C7: [written_types] starts empty; each writer of a type either skips
    the type and leaves the state as it is, or writes the declaration and
    adds the name, and adds nothing when it raises; the other methods
    leave the set as it is; so [write_types] and [write] remove nothing
    from it. *)
Theorem emission_state_monotone :
  written_types initial_state = ∅ /\
  (forall self t, declares (name t) false (write_type_scalar self t)) /\
  (forall self t,
     declares (name t) (str_in (name t) builtin_enum_names) (write_type_enum self t)) /\
  (forall self t, declares (name t) false (write_type_input_object self t)) /\
  (forall self t, declares (name t) false (write_type_interface self t)) /\
  (forall self t,
     declares (name t) (str_in (name t) builtin_object_names) (write_type_object self t)) /\
  (forall self t, declares (name t) false (write_type_union self t)) /\
  (forall text, keeps (write_banner text)) /\
  (forall self, keeps (write_header self)) /\
  (forall self, keeps (write_entry_points self)) /\
  (forall field siblings, keeps (write_field_input field siblings)) /\
  (forall field siblings, keeps (write_field_output field siblings)) /\
  (forall arg siblings, keeps (write_arg arg siblings)) /\
  (forall self, grows (write_types self)) /\
  (forall self, grows (write self)).
Proof.
  repeat apply conj; try reflexivity; intros;
    eauto using declares_write_type_enum, declares_write_type_scalar,
      declares_write_type_input_object, declares_write_type_interface,
      declares_write_type_object, declares_write_type_union,
      keeps_write_banner, keeps_write_header, keeps_write_entry_points,
      keeps_write_field_input, keeps_write_field_output, keeps_write_arg, grows_write_types.
  unfold write.
  apply grows_bind; [apply keeps_grows, keeps_write_header|]. intros _.
  apply grows_bind; [apply grows_write_types|]. intros _.
  apply keeps_grows, keeps_write_entry_points.
Qed.

(** ** Interfaces of a written object *)

Lemma object_interfaces_written (self : CodeGen) (written : gset string)
    (ifaces : list TypeRef) (bases : list string) (inherited : gset string)
    (r : list string * gset string) :
  object_interfaces self written ifaces bases inherited = Ok r ->
  Forall (fun iface => exists n, ref_name iface = Some n /\ n ∈ written) ifaces.
Proof.
  revert bases inherited.
  induction ifaces as [|iface rest IH]; intros bases inherited Hrun; [constructor|].
  cbn in Hrun.
  destruct (ref_name iface) as [iface_name|] eqn:Hname; [|discriminate].
  destruct (bool_decide (iface_name ∈ written)) eqn:Hw; [|discriminate].
  destruct (self_type_by_name self !! iface_name) as [i|]; [|discriminate].
  destruct (fields i) as [iface_fields|]; [|discriminate].
  cbn in Hrun.
  constructor; [|eapply IH; exact Hrun].
  exists iface_name. split; [exact Hname|]. now apply bool_decide_eq_true in Hw.
Qed.

(** The assertion of [write_type_object]: an object is only written
    when each of its interfaces is in [written_types]. *)
Lemma written_object_interfaces (self : CodeGen) (t : IntrospectionType) (st st' : GenState) :
  str_in (name t) builtin_object_names = false ->
  write_type_object self t st = (Ok (), st') ->
  Forall (fun iface => exists n, ref_name iface = Some n /\ n ∈ written_types st)
    (iter_list (interfaces t)).
Proof.
  intros Hb Hrun. unfold write_type_object in Hrun. rewrite Hb in Hrun.
  rewrite !bind_run in Hrun. unfold get_written in Hrun. rewrite !bind_run in Hrun.
  unfold lift in Hrun.
  destruct (object_interfaces self (written_types st) (iter_list (interfaces t)) _ ∅)
    as [r|e] eqn:Hi; [|discriminate].
  eapply object_interfaces_written; exact Hi.
Qed.

Lemma run_ok (p : result unit * GenState) : p.1 = Ok () -> p = (Ok (), p.2).
Proof. destruct p as [r st]; cbn. now intros ->. Qed.

(** ** What [list.sort] does with a comparison that respects an order

[le] is an order that [lt] respects: an item strictly below another is
less than it, an item strictly above another is not; between items that
[le] ranks alike [lt] may answer anything. *)

Lemma in_order_rev {A} (le : A -> A -> bool) (l : list A) :
  in_order (fun x y => le y x) l -> in_order le (rev l).
Proof.
  unfold in_order. induction 1 as [|x l Hs IH Hx]; cbn; [constructor|].
  apply StronglySorted_app_2; [|exact IH|repeat constructor].
  intros y z Hy Hz. apply list_elem_of_singleton in Hz as ->.
  rewrite Forall_forall in Hx. apply Hx.
  apply list_elem_of_In. apply list_elem_of_In, in_rev in Hy. exact Hy.
Qed.

Section SortOrder.
Context {A : Type} (le lt : A -> A -> bool).
Hypothesis le_trans : forall x y z, le x y = true -> le y z = true -> le x z = true.
Hypothesis lt_below : forall x y, le y x = false -> lt x y = true.
Hypothesis lt_above : forall x y, le x y = false -> lt x y = false.

Lemma not_lt_le (x y : A) : lt x y = false -> le y x = true.
Proof using lt_below.
  intros H. destruct (le y x) eqn:E; [reflexivity|].
  apply lt_below in E. congruence.
Qed.

Lemma lt_le (x y : A) : lt x y = true -> le x y = true.
Proof using lt_above.
  intros H. destruct (le x y) eqn:E; [reflexivity|].
  apply lt_above in E. congruence.
Qed.

#[local] Instance le_transitive : Transitive (fun x y => le x y = true).
Proof using le_trans. intros x y z. apply le_trans. Qed.

#[local] Instance ge_transitive : Transitive (fun x y => le y x = true).
Proof using le_trans. intros x y z H1 H2. exact (le_trans _ _ _ H2 H1). Qed.

Lemma run_ascending_sorted (prev : A) (r : list A) :
  Sorted (fun x y => le x y = true) (prev :: take (run_ascending lt prev r) r).
Proof using lt_below.
  revert prev. induction r as [|z r IH]; intros prev; cbn.
  - repeat constructor.
  - destruct (lt z prev) eqn:E; cbn; [repeat constructor|].
    constructor; [apply IH|]. constructor. now apply not_lt_le.
Qed.

Lemma run_descending_sorted (prev : A) (r : list A) :
  Sorted (fun x y => le y x = true) (prev :: take (run_descending lt prev r) r).
Proof using lt_above.
  revert prev. induction r as [|z r IH]; intros prev; cbn.
  - repeat constructor.
  - destruct (lt z prev) eqn:E; cbn; [|repeat constructor].
    constructor; [apply IH|]. constructor. now apply lt_le.
Qed.

(** The run [count_run] finds, reversed when descending, is in order. *)
Lemma count_run_in_order (l : list A) (n : nat) (descending : bool) :
  count_run lt l = (n, descending) ->
  in_order le (if descending then rev (take n l) else take n l).
Proof using le_trans lt_below lt_above.
  unfold in_order.
  destruct l as [|x [|y r]]; cbn.
  - intros [= <- <-]. constructor.
  - intros [= <- <-]. repeat constructor.
  - destruct (lt y x) eqn:E; intros [= <- <-].
    + apply (in_order_rev le (x :: y :: take (run_descending lt y r) r)).
      apply (Sorted_StronglySorted (fun x y => le y x = true)).
      constructor; [apply run_descending_sorted|]. constructor. now apply lt_le.
    + cbn. apply (Sorted_StronglySorted (fun x y => le x y = true)).
      constructor; [apply run_ascending_sorted|]. constructor. now apply not_lt_le.
Qed.

(** The binary search ends where everything before is not above the pivot
and everything from there on is not below it. *)
Lemma bisect_place (fuel : nat) (a : list A) (pivot : A) (l r : nat) :
  in_order le a ->
  (r <= length a)%nat -> (r - l < fuel)%nat ->
  Forall (fun x => le x pivot = true) (take l a) ->
  Forall (fun x => le pivot x = true) (drop r a) ->
  let k := bisect lt fuel a pivot l r in
  Forall (fun x => le x pivot = true) (take k a) /\
  Forall (fun x => le pivot x = true) (drop k a).
Proof using le_trans lt_below lt_above.
  intros Hs. revert l r. induction fuel as [|fuel IH]; intros l r Hr Hf Hl Hrr; [lia|].
  rewrite bisect_step.
  destruct (decide (l < r)%nat) as [Hlr|Hlr].
  2:{ cbn. split; [assumption|].
      assert (l = r \/ r < l)%nat as [->|Hlt] by lia; [assumption|].
      rewrite <- (take_drop (l - r) (drop r a)) in Hrr.
      apply Forall_app in Hrr as [_ Hrr]. rewrite drop_drop in Hrr.
      now replace (r + (l - r))%nat with l in Hrr by lia. }
  assert (Hhalf : ((r - l) / 2 < r - l)%nat) by (apply Nat.div_lt; lia).
  set (p := (l + (r - l) / 2)%nat) in *.
  destruct (lookup_lt_is_Some_2 a p) as [x Hx]; [lia|].
  rewrite Hx.
  pose proof (take_drop_middle a p x Hx) as Hmid.
  assert (Hsplit : in_order le (take p a ++ x :: drop (S p) a)) by now rewrite Hmid.
  apply StronglySorted_app in Hsplit as (Hcross & _ & Htail).
  apply StronglySorted_cons in Htail as [Hafter _].
  destruct (lt pivot x) eqn:E.
  - apply IH; [lia | lia | assumption |].
    rewrite (drop_S a x p Hx). constructor; [now apply lt_le|].
    eapply Forall_impl; [exact Hafter|]. cbn. intros y Hy.
    eapply le_trans; [apply lt_le; exact E | exact Hy].
  - apply IH; [lia | lia | | assumption].
    rewrite (take_S_r a p x Hx). apply Forall_app. split.
    + apply Forall_forall. intros y Hy.
      eapply le_trans; [apply (Hcross y x Hy); now left | now apply not_lt_le].
    + repeat constructor. now apply not_lt_le.
Qed.

Lemma insert_pivot_in_order (sorted : list A) (pivot : A) :
  in_order le sorted -> in_order le (insert_pivot lt sorted pivot).
Proof using le_trans lt_below lt_above.
  intros Hs. unfold insert_pivot.
  destruct (bisect_place (S (length sorted)) sorted pivot 0 (length sorted) Hs)
    as [Hbefore Hafter]; [lia | lia | constructor | now rewrite drop_all |].
  set (k := bisect lt _ _ _ _ _) in *.
  assert (Hsplit : in_order le (take k sorted ++ drop k sorted)) by now rewrite take_drop.
  apply StronglySorted_app in Hsplit as (Hcross & Hl & Hr).
  apply StronglySorted_app_2; [|exact Hl|now constructor].
  intros y z Hy Hz. apply elem_of_cons in Hz as [->|Hz].
  - rewrite Forall_forall in Hbefore. now apply Hbefore.
  - now apply Hcross.
Qed.

Lemma binarysort_in_order (rest sorted : list A) :
  in_order le sorted -> in_order le (binarysort lt sorted rest).
Proof using le_trans lt_below lt_above.
  unfold binarysort. revert sorted.
  induction rest as [|x rest IH]; intros sorted Hs; cbn; [exact Hs|].
  apply IH, insert_pivot_in_order, Hs.
Qed.

Lemma list_sort_in_order (l : list A) : in_order le (list_sort lt l).
Proof using le_trans lt_below lt_above.
  unfold list_sort.
  destruct l as [|x [|y l]]; [constructor | repeat constructor |].
  destruct (count_run lt (x :: y :: l)) as [n descending] eqn:Hrun.
  apply binarysort_in_order. exact (count_run_in_order _ _ _ Hrun).
Qed.
End SortOrder.

(** ** The order of the types *)

Lemma string_leb_trans (a b c : string) :
  String.leb a b = true -> String.leb b c = true -> String.leb a c = true.
Proof.
  unfold String.leb. revert b c.
  induction a as [|x a IH]; intros [|y b] [|z c]; cbn; try congruence.
  unfold Ascii.compare.
  destruct (N.compare_spec (N_of_ascii x) (N_of_ascii y)) as [Hxy|Hxy|Hxy];
    destruct (N.compare_spec (N_of_ascii y) (N_of_ascii z)) as [Hyz|Hyz|Hyz];
    try congruence;
    destruct (N.compare_spec (N_of_ascii x) (N_of_ascii z)) as [Hxz|Hxz|Hxz];
    try congruence; try lia.
  apply IH.
Qed.

Lemma name_lt_below (x y : IntrospectionType) : name_le y x = false -> name_lt x y = true.
Proof.
  unfold name_le, name_lt, String.leb, String.ltb.
  rewrite (String.compare_antisym (name x) (name y)).
  now destruct (String.compare (name y) (name x)).
Qed.

Lemma name_lt_above (x y : IntrospectionType) : name_le x y = false -> name_lt x y = false.
Proof.
  unfold name_le, name_lt, String.leb, String.ltb.
  now destruct (String.compare (name x) (name y)).
Qed.

(** [self.types] holds the types of the schema, each as often as the
schema has it, in the order of their names. *)
Theorem types_sorted_by_name (schema_name : string) (schema : Schema) :
  self_types (CodeGen_init schema_name schema) ≡ₚ types schema /\
  in_order name_le (self_types (CodeGen_init schema_name schema)).
Proof.
  split; [apply list_sort_perm|].
  apply list_sort_in_order.
  - intros x y z. apply string_leb_trans.
  - apply name_lt_below.
  - apply name_lt_above.
Qed.








(** ** What a run leaves in [written_types] *)

Lemma declared_names_cons (t : IntrospectionType) (l : list IntrospectionType) :
  declared_names (t :: l) =
  (if skipped t then ∅ else {[name t]}) ∪ declared_names l.
Proof.
  unfold declared_names. cbn. destruct (skipped t); cbn; [|reflexivity].
  now rewrite union_empty_l_L.
Qed.

Lemma declared_names_app (l1 l2 : list IntrospectionType) :
  declared_names (l1 ++ l2) = declared_names l1 ∪ declared_names l2.
Proof.
  unfold declared_names. now rewrite List.filter_app, map_app, list_to_set_app_L.
Qed.

Lemma declared_names_perm (l1 l2 : list IntrospectionType) :
  l1 ≡ₚ l2 -> declared_names l1 = declared_names l2.
Proof.
  intros Hp. unfold declared_names. apply set_eq. intros x.
  rewrite !elem_of_list_to_set, !list_elem_of_In, !in_map_iff.
  split; intros (t & Hn & Ht); exists t; (split; [exact Hn|]);
    apply filter_In in Ht as [Ht Hs]; apply filter_In; (split; [|exact Hs]).
  - eapply Permutation_in; eassumption.
  - eapply Permutation_in; [symmetry|]; eassumption.
Qed.

(** A loop over writers adds the names of the types it does not pass
over. *)
Lemma for_each_declares (body : IntrospectionType -> gen unit)
    (l : list IntrospectionType) (st st' : GenState) :
  Forall (fun t => declares (name t) (skipped t) (body t)) l ->
  for_each body l st = (Ok (), st') ->
  written_types st' = written_types st ∪ declared_names l.
Proof.
  intros Hb. revert st. induction Hb as [|t l Ht _ IH]; intros st Hrun; cbn in Hrun.
  - injection Hrun as <-. unfold declared_names. cbn. now rewrite union_empty_r_L.
  - rewrite bind_run in Hrun. specialize (Ht st).
    destruct (body t st) as [[[]|e] st1]; [|discriminate].
    rewrite (IH _ Hrun), declared_names_cons.
    destruct (skipped t).
    + subst st1. now rewrite union_empty_l_L.
    + destruct Ht as [-> _]. apply set_eq. intros x. rewrite !elem_of_union. tauto.
Qed.

Lemma dispatch_declares (self : CodeGen)
    (mapper : string -> option (IntrospectionType -> gen unit)) (kinds : list string)
    (l : list IntrospectionType) :
  mapper = mapper_basic self /\ kinds = basic_kinds \/
  mapper = mapper_input_containers self /\ kinds = input_kinds \/
  mapper = mapper_output_containers self /\ kinds = output_kinds \/
  mapper = mapper_post self /\ kinds = post_kinds ->
  Forall (fun t => declares (name t) (skipped t) (dispatch mapper t))
    (List.filter (kind_in kinds) l).
Proof.
  intros Hm. apply Forall_forall. intros t Ht.
  apply list_elem_of_In, filter_In in Ht as [_ Hk].
  unfold kind_in, str_in in Hk. apply bool_decide_eq_true in Hk.
  unfold dispatch, skipped.
  destruct Hm as [[-> ->]|[[-> ->]|[[-> ->]|[-> ->]]]];
    unfold mapper_basic, mapper_input_containers, mapper_output_containers, mapper_post;
    repeat (apply elem_of_cons in Hk as [Hk|Hk]; [rewrite Hk; cbn|]);
    try (now apply elem_of_nil in Hk); rewrite ?orb_false_r.
  - apply declares_write_type_enum.
  - apply declares_write_type_scalar.
  - apply declares_write_type_input_object.
  - apply declares_write_type_interface.
  - apply declares_write_type_object.
  - apply declares_write_type_union.
Qed.

(** When [write_types] returns, it has added to [written_types] the names
of all the types except the built-in introspection enums and
meta-objects, and nothing else. *)
Theorem written_after_write_types (self : CodeGen) (st st' : GenState) :
  write_types self st = (Ok (), st') ->
  written_types st' = written_types st ∪ declared_names (self_types self).
Proof.
  intros Hrun. rewrite write_types_run in Hrun.
  pose proof (classify_perm (self_types self)) as Hperm. cbv zeta in Hperm.
  set (b := classify (self_types self)) in *.
  rewrite bind_run in Hrun.
  destruct (emit_buckets self b st) as [[[]|e] st4] eqn:Hemit; [|discriminate].
  destruct (unclaimed b) as [|u us] eqn:Hu; [|discriminate].
  injection Hrun as <-.
  rewrite (declared_names_perm _ _ Hperm), !declared_names_app.
  replace (declared_names []) with (∅ : gset string) by reflexivity.
  unfold emit_buckets in Hemit.
  repeat match type of Hemit with
  | (write_banner ?text ≫= _) ?s = _ =>
      rewrite bind_run in Hemit;
      let c := fresh "c" in
      destruct (write_banner_run text s) as [c Hc]; rewrite Hc in Hemit; clear Hc
  | (for_each ?body ?l ≫= _) ?s = _ =>
      rewrite bind_run in Hemit;
      let H := fresh "Hloop" in let s' := fresh "st" in
      destruct (for_each body l s) as [[[]|?] s'] eqn:H; [|discriminate]
  end.
  apply for_each_declares in Hloop, Hloop0, Hloop1, Hemit;
    try (unfold b, classify; cbn; eapply dispatch_declares; tauto).
  cbn [written_types] in *. rewrite Hemit, Hloop1, Hloop0, Hloop.
  apply set_eq. intros x. rewrite !elem_of_union.
  pose proof (not_elem_of_empty (C := gset string) x). tauto.
Qed.

(** ** An object whose interface has not been written *)

Lemma object_interfaces_unwritten (self : CodeGen) (written : gset string)
    (ifaces : list TypeRef) (bases : list string) (inherited : gset string) :
  Exists (fun iface => forall n, ref_name iface = Some n -> n ∉ written) ifaces ->
  exists e, object_interfaces self written ifaces bases inherited = Raise e.
Proof.
  intros Hex. revert bases inherited.
  induction Hex as [iface rest Hn|iface rest _ IH]; intros bases inherited; cbn.
  - destruct (ref_name iface) as [n|]; [|eauto].
    destruct (bool_decide (n ∈ written)) eqn:Hw; [|eauto].
    apply bool_decide_eq_true in Hw. now destruct (Hn n eq_refl).
  - destruct (ref_name iface) as [n|]; [|eauto].
    destruct (bool_decide (n ∈ written)); [|eauto].
    destruct (self_type_by_name self !! n) as [i|]; [|eauto].
    destruct (fields i) as [fs|]; cbn; [apply IH | eauto].
Qed.

(** An object that names an interface not yet in [written_types] is not
written: the run stops with an exception before any text of the object
is handed to the writer. *)
Theorem unwritten_interface_aborts (self : CodeGen) (t : IntrospectionType) (st : GenState) :
  str_in (name t) builtin_object_names = false ->
  Exists (fun iface => forall n, ref_name iface = Some n -> n ∉ written_types st)
    (iter_list (interfaces t)) ->
  exists e, write_type_object self t st = (Raise e, st).
Proof.
  intros Hb Hex. unfold write_type_object. rewrite Hb.
  rewrite bind_run. unfold get_written. rewrite bind_run. unfold lift.
  match goal with
  | |- context [object_interfaces self ?w ?l ?bs ?inh] =>
      destruct (object_interfaces_unwritten self w l bs inh Hex) as [e ->]
  end.
  now exists e.
Qed.

(** ** The loader on other documents *)

(** A document without a usable [types] whose [data] is anything but an
object, the null value included, does not get the schema-format error:
asking [data] for [__schema] raises [AttributeError]. *)
Theorem load_schema_data_not_object (d : list (string * pyval)) (data : pyval) :
  truthy (get d "types") = false ->
  assoc "data" d = Some data ->
  (forall entries, data <> PDict entries) ->
  load_schema (PDict d) = Raise AttributeError.
Proof.
  intros Ht Hd Hn. unfold load_schema. cbn. fold (get d "types"). rewrite Ht, Hd.
  destruct data; try reflexivity. now destruct (Hn entries).
Qed.

(** What the loader returns is the document, its [data.__schema] or its
[__schema], and is never a value that counts as false. *)
Theorem load_schema_returns_truthy (document schema : pyval) :
  load_schema document = Ok schema ->
  truthy schema = true /\
  exists d, document = PDict d /\
    (schema = document \/ schema = data_schema d \/ schema = get d "__schema").
Proof.
  intros Hl. destruct document as [| | | | | | |d]; try discriminate.
  destruct (truthy (get d "types")) eqn:Ht.
  - rewrite (load_schema_truthy_types d Ht) in Hl. injection Hl as <-.
    split; [|exists d; tauto].
    unfold get in Ht. destruct d; [discriminate|reflexivity].
  - unfold load_schema in Hl. cbn in Hl. fold (get d "types") in Hl. rewrite Ht in Hl.
    assert (Hdone : forall s,
              truthy s = true ->
              s = data_schema d \/ s = get d "__schema" ->
              truthy s = true /\
              exists d', PDict d = PDict d' /\
                (s = PDict d \/ s = data_schema d' \/ s = get d' "__schema")).
    { intros s Hs Hor. split; [exact Hs|]. exists d. tauto. }
    destruct (assoc "data" d) as [[| | | | | | |data]|] eqn:Hd; try discriminate; cbn in Hl.
    + destruct (assoc "__schema" data) as [inner|] eqn:Hi; cbn in Hl.
      * destruct (truthy inner) eqn:Hti.
        -- injection Hl as <-. apply Hdone; [exact Hti|]. left.
           unfold data_schema, get. now rewrite Hd, Hi.
        -- destruct (assoc "__schema" d) as [s|] eqn:Hs; cbn in Hl; [|discriminate].
           destruct (truthy s) eqn:Hts; [|discriminate].
           injection Hl as <-. apply Hdone; [exact Hts|]. right. unfold get. now rewrite Hs.
      * destruct (assoc "__schema" d) as [s|] eqn:Hs; cbn in Hl; [|discriminate].
        destruct (truthy s) eqn:Hts; [|discriminate].
        injection Hl as <-. apply Hdone; [exact Hts|]. right. unfold get. now rewrite Hs.
    + destruct (assoc "__schema" d) as [s|] eqn:Hs; cbn in Hl; [|discriminate].
      destruct (truthy s) eqn:Hts; [|discriminate].
      injection Hl as <-. apply Hdone; [exact Hts|]. right. unfold get. now rewrite Hs.
Qed.

(** ** References that cannot be resolved *)

Fixpoint TypeRef_induction (P : TypeRef -> Prop)
    (H_plain : forall kind name, P (mkTypeRef kind name None))
    (H_wrap : forall kind name inner, P inner -> P (mkTypeRef kind name (Some inner)))
    (t : TypeRef) : P t :=
  match t with
  | mkTypeRef kind name None => H_plain kind name
  | mkTypeRef kind name (Some inner) =>
      H_wrap kind name inner (TypeRef_induction P H_plain H_wrap inner)
  end.

(** [get_type_ref] returns a reference for every type whose wrappers all
wrap something, whatever has been written and whatever the siblings are,
and raises [TypeError] for any other. *)
Theorem get_type_ref_well_wrapped (written siblings : gset string) (t : TypeRef) :
  (well_wrapped t = true -> exists r, get_type_ref written t siblings = Ok r) /\
  (well_wrapped t = false -> get_type_ref written t siblings = Raise TypeError).
Proof.
  induction t as [kind name|kind name inner [IHok IHerr]] using TypeRef_induction; cbn.
  - destruct (decide (kind = "NON_NULL")) as [->|Hn]; cbn.
    { split; [discriminate|reflexivity]. }
    destruct (decide (kind = "LIST")) as [->|Hl]; cbn.
    { split; [discriminate|reflexivity]. }
    destruct (decide (kind = "NON_NULL" \/ kind = "LIST")) as [[?|?]|_]; try contradiction.
    split; [|discriminate]. intros _. destruct name as [n|]; [|eauto].
    destruct (_ && _)%bool; eauto.
  - destruct (decide (kind = "NON_NULL")) as [->|Hn]; cbn.
    { split; intros H.
      - destruct (IHok H) as [r ->]. cbn. eauto.
      - now rewrite (IHerr H). }
    destruct (decide (kind = "LIST")) as [->|Hl]; cbn.
    { split; intros H.
      - destruct (IHok H) as [r ->]. cbn. eauto.
      - now rewrite (IHerr H). }
    destruct (decide (kind = "NON_NULL" \/ kind = "LIST")) as [[?|?]|_]; try contradiction.
    split; [|discriminate]. intros _. destruct name as [n|]; [|eauto].
    destruct (_ && _)%bool; eauto.
Qed.

(** ** The flags of [analyze] *)

Lemma datetime_not_relay (n : string) :
  str_in n datetime_types = true -> str_in n relay_types = false.
Proof.
  unfold str_in. rewrite bool_decide_eq_true, bool_decide_eq_false.
  unfold datetime_types, relay_types. intros Hd Hr.
  repeat (apply elem_of_cons in Hd as [->|Hd]);
    try (now apply elem_of_nil in Hd);
    repeat (apply elem_of_cons in Hr as [Hr|Hr]; [discriminate|]);
    now apply elem_of_nil in Hr.
Qed.

(** Leaving the loop early changes nothing: each flag is set exactly
when a name of its list occurs. *)
Lemma analyze_flags (ts : list IntrospectionType) (uses_datetime uses_relay : bool) :
  analyze ts uses_datetime uses_relay =
  ((uses_datetime || existsb (fun t => str_in (name t) datetime_types) ts)%bool,
   (uses_relay || existsb (fun t => str_in (name t) relay_types) ts)%bool).
Proof.
  revert uses_datetime uses_relay.
  induction ts as [|t ts IH]; intros dt rl; cbn.
  - now rewrite !orb_false_r.
  - destruct (str_in (name t) datetime_types) eqn:Hd.
    + rewrite (datetime_not_relay _ Hd). cbn.
      destruct rl; [now rewrite orb_true_r|].
      rewrite IH. now rewrite orb_true_r.
    + destruct (str_in (name t) relay_types) eqn:Hr; cbn; [|apply IH].
      destruct dt; [now rewrite orb_true_r|].
      rewrite IH. now rewrite orb_true_r.
Qed.

Lemma existsb_perm {A} (p : A -> bool) (l1 l2 : list A) :
  l1 ≡ₚ l2 -> existsb p l1 = existsb p l2.
Proof.
  intros Hp. apply eq_true_iff_eq. rewrite !existsb_exists.
  split; intros (x & Hx & Hpx); exists x; (split; [|exact Hpx]).
  - eapply Permutation_in; eassumption.
  - eapply Permutation_in; [symmetry|]; eassumption.
Qed.

(** The generator uses the date and time support exactly when the schema
has a type named DateTime, Date or Time, and the relay support exactly
when it has one named Node or PageInfo; the early exit of the loop and
the order of the types do not matter. *)
Theorem analyze_finds_names (schema_name : string) (schema : Schema) :
  let self := CodeGen_init schema_name schema in
  (self_uses_datetime self = true <->
   exists t, t ∈ types schema /\ name t ∈ datetime_types) /\
  (self_uses_relay self = true <->
   exists t, t ∈ types schema /\ name t ∈ relay_types).
Proof.
  cbn. rewrite analyze_flags. cbn.
  rewrite !(existsb_perm _ _ _ (list_sort_perm name_lt (types schema))).
  rewrite !existsb_exists. unfold str_in.
  split; split.
  - intros (t & Ht & Hn). exists t. split; [now apply list_elem_of_In|].
    now apply bool_decide_eq_true in Hn.
  - intros (t & Ht & Hn). exists t. split; [now apply list_elem_of_In|].
    now apply bool_decide_eq_true.
  - intros (t & Ht & Hn). exists t. split; [now apply list_elem_of_In|].
    now apply bool_decide_eq_true in Hn.
  - intros (t & Ht & Hn). exists t. split; [now apply list_elem_of_In|].
    now apply bool_decide_eq_true.
Qed.

(** ** The index [type_by_name] *)

Lemma index_lookup_elem (l : list IntrospectionType) (m : gmap string IntrospectionType)
    (k : string) (t : IntrospectionType) :
  foldl (fun m t => <[name t := t]> m) m l !! k = Some t ->
  (t ∈ l /\ name t = k) \/ m !! k = Some t.
Proof.
  revert m. induction l as [|x l IH]; intros m H; cbn in H; [now right|].
  apply IH in H as [[Hin Hn]|H].
  - left. split; [now right | exact Hn].
  - apply lookup_insert_Some in H as [[<- <-]|[_ H]]; [|now right].
    left. split; [now left | reflexivity].
Qed.

Lemma index_lookup_other (l : list IntrospectionType) (m : gmap string IntrospectionType)
    (k : string) :
  k ∉ map name l ->
  foldl (fun m t => <[name t := t]> m) m l !! k = m !! k.
Proof.
  revert m. induction l as [|x l IH]; intros m Hk; cbn; [reflexivity|].
  cbn in Hk. apply not_elem_of_cons in Hk as [Hne Hk].
  rewrite (IH _ Hk). now rewrite lookup_insert_ne.
Qed.

Lemma index_lookup_unique (l : list IntrospectionType) (m : gmap string IntrospectionType)
    (t : IntrospectionType) :
  NoDup (map name l) -> t ∈ l ->
  foldl (fun m t => <[name t := t]> m) m l !! name t = Some t.
Proof.
  revert m. induction l as [|x l IH]; intros m Hnd Hin; [now apply elem_of_nil in Hin|].
  cbn in *. apply NoDup_cons in Hnd as [Hx Hnd].
  apply elem_of_cons in Hin as [->|Hin].
  - rewrite (index_lookup_other _ _ _ Hx). apply lookup_insert_eq.
  - now apply IH.
Qed.

Lemma index_lookup_some (l : list IntrospectionType) (m : gmap string IntrospectionType)
    (k : string) :
  k ∈ map name l -> is_Some (foldl (fun m t => <[name t := t]> m) m l !! k).
Proof.
  revert m. induction l as [|x l IH]; intros m Hk; [now apply elem_of_nil in Hk|].
  cbn in *. destruct (decide (k ∈ map name l)) as [Hin|Hout]; [now apply IH|].
  apply elem_of_cons in Hk as [->|Hk]; [|contradiction].
  rewrite (index_lookup_other _ _ _ Hout), lookup_insert_eq. eauto.
Qed.

(** [type_by_name] has an entry for exactly the names of the types of the
schema, each entry a type of the schema with that name; when no two
types share a name, every type is the entry of its name. *)
Theorem type_by_name_index (schema_name : string) (schema : Schema) :
  let self := CodeGen_init schema_name schema in
  (forall k, is_Some (self_type_by_name self !! k) <-> k ∈ map name (types schema)) /\
  (forall k t, self_type_by_name self !! k = Some t -> t ∈ types schema /\ name t = k) /\
  (NoDup (map name (types schema)) ->
   forall t, t ∈ types schema -> self_type_by_name self !! name t = Some t).
Proof.
  cbn. pose proof (list_sort_perm name_lt (types schema)) as Hperm.
  set (sorted := list_sort name_lt (types schema)) in *.
  assert (Hfound : forall k t,
             foldl (fun m t => <[name t := t]> m) (∅ : gmap string IntrospectionType) sorted !! k
             = Some t ->
             t ∈ types schema /\ name t = k).
  { intros k t H. apply index_lookup_elem in H as [[Hin Hn]|H].
    - split; [|exact Hn]. now rewrite <- Hperm.
    - now rewrite lookup_empty in H. }
  split; [|split].
  - intros k. split.
    + intros [t Ht]. apply Hfound in Ht as [Hin <-].
      apply list_elem_of_In, in_map, list_elem_of_In. exact Hin.
    + intros Hk. apply index_lookup_some.
      now rewrite (Permutation_map name Hperm).
  - exact Hfound.
  - intros Hnd t Hin. apply index_lookup_unique.
    + now rewrite (Permutation_map name Hperm).
    + now rewrite Hperm.
Qed.

(** ** Which exceptions a run can end in *)

(** From a state in [P], [m] returns in a state in [Q] or raises an
exception in [E]. *)
Definition triple {A} (E : exn -> Prop) (P : GenState -> Prop) (m : gen A)
    (Q : GenState -> Prop) : Prop :=
  forall st, P st ->
    match m st with
    | (Ok _, st') => Q st'
    | (Raise e, _) => E e
    end.

Definition raises_only {A} (E : exn -> Prop) (m : gen A) : Prop :=
  triple E (fun _ => True) m (fun _ => True).

(** [P] looks at [written_types] only. *)
Definition on_written (P : GenState -> Prop) : Prop :=
  forall st st', written_types st = written_types st' -> P st -> P st'.

Lemma triple_bind {A B} (E : exn -> Prop) (P R Q : GenState -> Prop)
    (m : gen A) (f : A -> gen B) :
  triple E P m R -> (forall a, triple E R (f a) Q) -> triple E P (m ≫= f) Q.
Proof.
  intros Hm Hf st HP. rewrite bind_run. specialize (Hm st HP).
  destruct (m st) as [[a|e] st1]; [apply Hf; exact Hm | exact Hm].
Qed.

Lemma triple_weaken {A} (E : exn -> Prop) (P P' Q Q' : GenState -> Prop) (m : gen A) :
  triple E P' m Q' -> (forall st, P st -> P' st) -> (forall st, Q' st -> Q st) ->
  triple E P m Q.
Proof.
  intros Hm HP HQ st Hst. specialize (Hm st (HP st Hst)).
  destruct (m st) as [[a|e] st1]; [apply HQ; exact Hm | exact Hm].
Qed.

Lemma triple_frame {A} (E : exn -> Prop) (P : GenState -> Prop) (m : gen A) :
  keeps m -> raises_only E m -> on_written P -> triple E P m P.
Proof.
  intros Hk Hr HP st Hst. specialize (Hr st I). destruct (Hk st) as [Hw _].
  destruct (m st) as [[a|e] st1]; cbn in *; [|exact Hr].
  eapply HP; [symmetry; exact Hw | exact Hst].
Qed.

Lemma triple_declares (E : exn -> Prop) (P Q : GenState -> Prop)
    (n : string) (skip : bool) (m : gen unit) :
  declares n skip m -> raises_only E m ->
  (forall st st', P st ->
     written_types st' = written_types st \/ written_types st' = {[n]} ∪ written_types st ->
     Q st') ->
  triple E P m Q.
Proof.
  intros Hd Hr HQ st Hst. specialize (Hr st I). specialize (Hd st).
  destruct (m st) as [[[]|e] st1]; [|exact Hr].
  apply (HQ st st1 Hst). destruct skip; [left; now subst | right; apply Hd].
Qed.

(** A loop whose body takes the invariant of the items done so far to
that of one item more. *)
Lemma triple_for_each {X} (E : exn -> Prop) (Inv : list X -> GenState -> Prop)
    (body : X -> gen unit) (l : list X) :
  (forall before x after,
     l = before ++ x :: after -> triple E (Inv before) (body x) (Inv (before ++ [x]))) ->
  triple E (Inv []) (for_each body l) (Inv l).
Proof.
  intros Hbody.
  enough (Hgen : forall todo done_,
             l = done_ ++ todo -> triple E (Inv done_) (for_each body todo) (Inv l))
    by exact (Hgen l [] eq_refl).
  induction todo as [|x todo IH]; intros done_ Hl st Hst; cbn.
  - rewrite app_nil_r in Hl. now subst.
  - rewrite bind_run. pose proof (Hbody done_ x todo Hl st Hst) as Hx.
    destruct (body x st) as [[[]|e] st1]; [|exact Hx].
    apply (IH (done_ ++ [x])); [now rewrite <- app_assoc | exact Hx].
Qed.

Lemma get_type_ref_raises (written siblings : gset string) (t : TypeRef) (e : exn) :
  get_type_ref written t siblings = Raise e -> e = TypeError.
Proof.
  induction t as [kind name|kind name inner IH] using TypeRef_induction; cbn.
  - destruct (decide (kind = "NON_NULL")); [congruence|].
    destruct (decide (kind = "LIST")); [congruence|].
    destruct name; [|discriminate]. now destruct (_ && _)%bool.
  - destruct (decide (kind = "NON_NULL")).
    { destruct (get_type_ref written inner siblings); cbn; [discriminate|].
      intros [= <-]. now apply IH. }
    destruct (decide (kind = "LIST")).
    { destruct (get_type_ref written inner siblings); cbn; [discriminate|].
      intros [= <-]. now apply IH. }
    destruct name; [|discriminate]. now destruct (_ && _)%bool.
Qed.

Section Exceptions.
Variable E : exn -> Prop.
Hypothesis E_type : E TypeError.
Hypothesis E_value : E ValueError.
Hypothesis E_parse : forall source e, parse_graphql_value source = Raise e -> E e.

Lemma raises_only_ret {A} (a : A) : raises_only E (mret a : gen A).
Proof. intros st _. exact I. Qed.

Lemma raises_only_writer (text : string) : raises_only E (writer text).
Proof. intros st _. exact I. Qed.

Lemma raises_only_add_written (n : string) : raises_only E (add_written n).
Proof. intros st _. exact I. Qed.

Lemma raises_only_get_written : raises_only E get_written.
Proof. intros st _. exact I. Qed.

Lemma raises_only_lift {A} (r : result A) :
  (forall e, r = Raise e -> E e) -> raises_only E (lift r).
Proof. intros Hr st _. unfold lift. destruct r as [a|e]; [exact I | now apply Hr]. Qed.

Lemma raises_only_bind {A B} (m : gen A) (f : A -> gen B) :
  raises_only E m -> (forall a, raises_only E (f a)) -> raises_only E (m ≫= f).
Proof. intros Hm Hf. eapply triple_bind; [exact Hm | exact Hf]. Qed.

Lemma raises_only_for_each {X} (body : X -> gen unit) (l : list X) :
  (forall x, raises_only E (body x)) -> raises_only E (for_each body l).
Proof.
  intros Hb. apply (triple_for_each E (fun _ _ => True)). intros before x after _. apply Hb.
Qed.

Lemma raises_only_iter {A} (l : option (list A)) : raises_only E (lift (iter l)).
Proof using E_type.
  apply raises_only_lift. destruct l; cbn; [discriminate|]. now intros e [= <-].
Qed.

Lemma raises_only_type_ref (t : TypeRef) (siblings : gset string) :
  raises_only E (type_ref t siblings).
Proof using E_type.
  unfold type_ref. apply raises_only_bind; [apply raises_only_get_written|].
  intros written. apply raises_only_lift. intros e He.
  now rewrite (get_type_ref_raises written siblings t e He).
Qed.

Lemma mapM_raise {X Y} (f : X -> result Y) (l : list X) (e : exn) :
  mapM f l = Raise e -> exists x, x ∈ l /\ f x = Raise e.
Proof.
  induction l as [|x l IH]; cbn; [discriminate|].
  destruct (f x) as [y|e'] eqn:Hx; cbn.
  - destruct (mapM f l) as [ys|e'']; cbn; [discriminate|].
    intros [= <-]. destruct (IH eq_refl) as (x' & Hin & Hx'). exists x'. split; [now right|exact Hx'].
  - intros [= <-]. exists x. split; [now left | exact Hx].
Qed.

Lemma py_int_raises (text : string) (e : exn) : py_int text = Raise e -> e = ValueError.
Proof.
  unfold py_int.
  destruct (str_chars text) as [|c l]; [congruence|].
  destruct (Ascii.eqb c "-").
  - destruct l as [|d l]; cbn; [congruence|].
    destruct (is_digit d && forallb is_digit l)%bool; cbn; congruence.
  - cbn. destruct (is_digit c && forallb is_digit l)%bool; cbn; congruence.
Qed.

(** The evaluation of a literal can only fail on an integer. *)
Lemma evaluate_raises (n : value_node) (e : exn) : evaluate n = Raise e -> e = ValueError.
Proof.
  induction n as [value|value|value|value|value| |values IH|fields IH]
    using value_node_induction; cbn; try discriminate.
  - destruct (py_int value) as [z|e'] eqn:Hz; cbn; [discriminate|].
    intros [= <-]. exact (py_int_raises _ _ Hz).
  - destruct (mapM evaluate values) as [vs|e'] eqn:Hm; cbn; [discriminate|].
    intros [= <-]. apply mapM_raise in Hm as (x & Hin & Hx).
    rewrite Forall_forall in IH. exact (IH x Hin Hx).
  - destruct (mapM _ fields) as [vs|e'] eqn:Hm; cbn; [discriminate|].
    intros [= <-]. apply mapM_raise in Hm as ([k v] & Hin & Hx).
    rewrite Forall_forall in IH. specialize (IH _ Hin). cbn in IH.
    destruct (evaluate v) as [y|e''] eqn:Hv; cbn in Hx; [discriminate|].
    injection Hx as <-. now apply IH.
Qed.

Lemma raises_only_parse_graphql_value_to_json (source : string) :
  raises_only E (lift (parse_graphql_value_to_json source)).
Proof using E_value E_parse.
  apply raises_only_lift. intros e He.
  unfold parse_graphql_value_to_json, visit in He.
  destruct (parse_graphql_value source) as [n|e'] eqn:Hp; cbn in He.
  - rewrite visit_node_evaluate in He.
    destruct (evaluate n) as [v|e'] eqn:Hv; cbn in He; [discriminate|].
    injection He as <-. apply evaluate_raises in Hv as ->. exact E_value.
  - injection He as <-. eapply E_parse; exact Hp.
Qed.

Lemma raises_only_write_banner (text : string) : raises_only E (write_banner text).
Proof. apply raises_only_writer. Qed.

Lemma raises_only_write_field_input (field : Field) (siblings : gset string) :
  raises_only E (write_field_input field siblings).
Proof using E_type.
  unfold write_field_input.
  apply raises_only_bind; [apply raises_only_type_ref | intros; apply raises_only_writer].
Qed.

Lemma raises_only_write_arg (arg : Arg) (siblings : gset string) :
  raises_only E (write_arg arg siblings).
Proof using E_type E_value E_parse.
  unfold write_arg.
  apply raises_only_bind; [apply raises_only_type_ref|]. intros tref.
  apply raises_only_bind; [|intros; apply raises_only_writer].
  destruct (arg_defaultValue arg) as [defval|]; [|apply raises_only_ret].
  destruct (String.eqb defval ""); [apply raises_only_ret|].
  destruct (startswith defval "$"); [apply raises_only_ret|].
  apply raises_only_bind; [apply raises_only_parse_graphql_value_to_json|].
  intros; apply raises_only_ret.
Qed.

Lemma raises_only_write_field_output (field : Field) (siblings : gset string) :
  raises_only E (write_field_output field siblings).
Proof using E_type E_value E_parse.
  unfold write_field_output.
  apply raises_only_bind; [apply raises_only_type_ref|]. intros tref.
  apply raises_only_bind; [apply raises_only_writer|]. intros _.
  apply raises_only_bind; [|intros; apply raises_only_writer].
  destruct (field_args field) as [|a0 args]; [apply raises_only_ret|].
  apply raises_only_bind; [apply raises_only_writer|]. intros _.
  apply raises_only_bind; [|intros; apply raises_only_writer].
  apply raises_only_for_each. intros x. apply raises_only_write_arg.
Qed.

Lemma raises_only_write_type_container (self : CodeGen) (t : IntrospectionType)
    (bases : string) (own_fields : list Field)
    (write_field : Field -> gset string -> gen unit) :
  (forall field siblings, raises_only E (write_field field siblings)) ->
  raises_only E (write_type_container self t bases own_fields write_field).
Proof.
  intros Hf. unfold write_type_container.
  destruct (get_py_fields_and_siblings own_fields) as [py_fields siblings].
  apply raises_only_bind; [apply raises_only_writer|]. intros _.
  apply raises_only_bind; [apply raises_only_for_each; intros; apply Hf|]. intros _.
  apply raises_only_bind; [apply raises_only_writer|]. intros _.
  apply raises_only_add_written.
Qed.

Lemma raises_only_write_type_input_object (self : CodeGen) (t : IntrospectionType) :
  raises_only E (write_type_input_object self t).
Proof using E_type.
  unfold write_type_input_object.
  apply raises_only_bind; [apply raises_only_iter|]. intros own_fields.
  apply raises_only_write_type_container. apply raises_only_write_field_input.
Qed.

Lemma raises_only_write_type_interface (self : CodeGen) (t : IntrospectionType) :
  raises_only E (write_type_interface self t).
Proof using E_type E_value E_parse.
  unfold write_type_interface.
  apply raises_only_bind; [apply raises_only_iter|]. intros own_fields.
  apply raises_only_write_type_container. apply raises_only_write_field_output.
Qed.

Lemma raises_only_write_type_enum (self : CodeGen) (t : IntrospectionType) :
  raises_only E (write_type_enum self t).
Proof using E_type.
  unfold write_type_enum.
  destruct (str_in (name t) builtin_enum_names); [apply raises_only_ret|].
  apply raises_only_bind; [apply raises_only_iter|]. intros values.
  apply raises_only_bind; [apply raises_only_writer|]. intros _.
  apply raises_only_add_written.
Qed.

Lemma raises_only_write_type_scalar (self : CodeGen) (t : IntrospectionType) :
  raises_only E (write_type_scalar self t).
Proof.
  unfold write_type_scalar.
  apply raises_only_bind.
  { destruct (str_in (name t) builtin_types); [apply raises_only_writer|].
    destruct (str_in (name t) datetime_types); apply raises_only_writer. }
  intros _. apply raises_only_bind; [apply raises_only_writer|]. intros _.
  apply raises_only_add_written.
Qed.

Lemma raises_only_write_type_union (self : CodeGen) (t : IntrospectionType) :
  raises_only E (write_type_union self t).
Proof using E_type.
  unfold write_type_union.
  apply raises_only_bind; [apply raises_only_iter|]. intros possible_types.
  apply raises_only_bind.
  { apply raises_only_lift. intros e He.
    apply mapM_raise in He as (v & _ & Hv).
    destruct (ref_name v); [discriminate|]. now injection Hv as <-. }
  intros names.
  apply raises_only_bind; [apply raises_only_writer|]. intros _.
  apply raises_only_add_written.
Qed.

(** What the loop over the interfaces of an object can raise. *)
Lemma object_interfaces_raises (self : CodeGen) (written : gset string)
    (ifaces : list TypeRef) (bases : list string) (inherited : gset string) (e : exn) :
  object_interfaces self written ifaces bases inherited = Raise e ->
  e = TypeError \/
  (exists n, e = KeyError n /\ n ∈ written /\ self_type_by_name self !! n = None) \/
  (exists iface, iface ∈ ifaces /\ e = AssertionError [ref_name iface] /\
     forall n, ref_name iface = Some n -> n ∉ written).
Proof.
  revert bases inherited.
  induction ifaces as [|iface rest IH]; intros bases inherited; cbn; [discriminate|].
  destruct (ref_name iface) as [n|] eqn:Hn.
  2:{ intros [= <-]. right; right. exists iface.
      split; [now left|]. split; [now rewrite Hn | congruence]. }
  destruct (bool_decide (n ∈ written)) eqn:Hw.
  2:{ intros [= <-]. apply bool_decide_eq_false in Hw. right; right. exists iface.
      split; [now left|]. split; [now rewrite Hn|]. congruence. }
  apply bool_decide_eq_true in Hw.
  destruct (self_type_by_name self !! n) as [i|] eqn:Hi.
  2:{ intros [= <-]. right; left. now exists n. }
  destruct (fields i) as [fs|]; cbn.
  2:{ intros [= <-]. now left. }
  intros He. apply IH in He as [He|[He|(x & Hin & He)]]; [tauto | tauto |].
  right; right. exists x. split; [now right | exact He].
Qed.

(** An exception of [write_type_object] is one of the loop over the
interfaces, or one of its fields. *)
Lemma write_type_object_raises (self : CodeGen) (t : IntrospectionType)
    (st st' : GenState) (e : exn) :
  write_type_object self t st = (Raise e, st') ->
  E e \/
  exists bases, object_interfaces self (written_types st) (iter_list (interfaces t)) bases ∅
                = Raise e.
Proof using E_type E_value E_parse.
  unfold write_type_object.
  destruct (str_in (name t) builtin_object_names); [discriminate|].
  rewrite bind_run. unfold get_written. rewrite bind_run. unfold lift at 1.
  match goal with
  | |- context [object_interfaces self ?w ?l ?bs ?inh] =>
      destruct (object_interfaces self w l bs inh) as [[bases inherited]|e'] eqn:Hi
  end.
  2:{ intros [= <- <-]. right. eauto. }
  intros Hrun. left.
  match type of Hrun with
  | ?m st = _ =>
      assert (Hr : raises_only E m)
  end.
  { apply raises_only_bind; [apply raises_only_iter|]. intros declared.
    apply raises_only_write_type_container, raises_only_write_field_output. }
  specialize (Hr st I). now rewrite Hrun in Hr.
Qed.

Lemma raises_only_write_header (self : CodeGen) : raises_only E (write_header self).
Proof.
  unfold write_header, write_datetime_import, write_relay_import, write_relay_fixup.
  repeat (apply raises_only_bind; [|intros _]);
    repeat match goal with
           | |- raises_only _ (if ?b then _ else _) => destruct b
           end;
    first [apply raises_only_writer | apply raises_only_ret].
Qed.

Lemma raises_only_write_entry_points (self : CodeGen) :
  raises_only E (write_entry_points self).
Proof.
  unfold write_entry_points.
  apply raises_only_bind; [apply raises_only_write_banner | intros _; apply raises_only_writer].
Qed.

Lemma dispatch_declares_one (self : CodeGen)
    (mapper : string -> option (IntrospectionType -> gen unit)) (kinds : list string)
    (t : IntrospectionType) :
  phase_mapper self mapper kinds -> kind_in kinds t = true ->
  declares (name t) (skipped t) (dispatch mapper t).
Proof.
  intros Hm Hk. pose proof (dispatch_declares self mapper kinds [t] Hm) as H.
  cbn in H. rewrite Hk in H. now apply Forall_cons in H as [H _].
Qed.

(** An exception of a writer comes from its own steps, or from the loop
of an object over its interfaces. *)
Lemma dispatch_raises (self : CodeGen)
    (mapper : string -> option (IntrospectionType -> gen unit)) (kinds : list string)
    (t : IntrospectionType) (st st' : GenState) (e : exn) :
  phase_mapper self mapper kinds -> kind_in kinds t = true ->
  dispatch mapper t st = (Raise e, st') ->
  E e \/
  kind t = "OBJECT" /\
  exists bases, object_interfaces self (written_types st) (iter_list (interfaces t)) bases ∅
                = Raise e.
Proof using E_type E_value E_parse.
  intros Hm Hk. unfold kind_in, str_in in Hk. apply bool_decide_eq_true in Hk.
  unfold dispatch.
  destruct Hm as [[-> ->]|[[-> ->]|[[-> ->]|[-> ->]]]];
    unfold mapper_basic, mapper_input_containers, mapper_output_containers, mapper_post;
    repeat (apply elem_of_cons in Hk as [Hk|Hk]; [rewrite Hk|]);
    try (now apply elem_of_nil in Hk);
    repeat match goal with
           | |- context [decide ?P] =>
               destruct (decide P) as [?|?]; try discriminate; try contradiction
           end;
    intros Hrun.
  - left. pose proof (raises_only_write_type_enum self t st I) as H. now rewrite Hrun in H.
  - left. pose proof (raises_only_write_type_scalar self t st I) as H. now rewrite Hrun in H.
  - left. pose proof (raises_only_write_type_input_object self t st I) as H.
    now rewrite Hrun in H.
  - left. pose proof (raises_only_write_type_interface self t st I) as H.
    now rewrite Hrun in H.
  - apply write_type_object_raises in Hrun as [He|Hb]; [now left | right; now split].
  - left. pose proof (raises_only_write_type_union self t st I) as H. now rewrite Hrun in H.
Qed.

(** One loop of [write_types] over types of its kinds, after the types
[d]: what it raises is in [E] when the exceptions of each object's loop
over its interfaces are. *)
Lemma triple_phase (self : CodeGen)
    (mapper : string -> option (IntrospectionType -> gen unit)) (kinds : list string)
    (W0 : gset string) (d l : list IntrospectionType) :
  phase_mapper self mapper kinds ->
  Forall (fun t => kind_in kinds t = true) l ->
  (forall before t after bases e,
     l = before ++ t :: after -> kind t = "OBJECT" ->
     object_interfaces self (W0 ∪ declared_names (d ++ before))
       (iter_list (interfaces t)) bases ∅ = Raise e ->
     E e) ->
  triple E (fun st => written_types st = W0 ∪ declared_names d)
    (for_each (dispatch mapper) l)
    (fun st => written_types st = W0 ∪ declared_names (d ++ l)).
Proof using E_type E_value E_parse.
  intros Hm Hkinds Hobj.
  eapply triple_weaken;
    [apply (triple_for_each E
              (fun before st => written_types st = W0 ∪ declared_names (d ++ before)))
    | intros st Hst; cbn; now rewrite app_nil_r
    | intros st Hst; exact Hst].
  intros before t after Hl st Hst.
  assert (Hk : kind_in kinds t = true).
  { rewrite Forall_forall in Hkinds. apply Hkinds. rewrite Hl.
    apply elem_of_app. right. now left. }
  pose proof (dispatch_declares_one self mapper kinds t Hm Hk st) as Hd.
  destruct (dispatch mapper t st) as [[[]|e] st'] eqn:Hrun.
  - rewrite app_assoc, (declared_names_app (d ++ before)), declared_names_cons.
    replace (declared_names []) with (∅ : gset string) by reflexivity.
    destruct (skipped t).
    + subst st'. rewrite Hst. apply set_eq. intros x. rewrite !elem_of_union.
      pose proof (not_elem_of_empty (C := gset string) x). tauto.
    + destruct Hd as [-> _]. rewrite Hst. apply set_eq. intros x. rewrite !elem_of_union.
      pose proof (not_elem_of_empty (C := gset string) x). tauto.
  - destruct (dispatch_raises self mapper kinds t st st' e Hm Hk Hrun)
      as [He|[Hko [bases Hb]]]; [exact He|].
    rewrite Hst in Hb. exact (Hobj before t after bases e Hl Hko Hb).
Qed.

Lemma kind_in_filter (kinds : list string) (l : list IntrospectionType) :
  Forall (fun t => kind_in kinds t = true) (List.filter (kind_in kinds) l).
Proof.
  apply Forall_forall. intros t Ht. apply list_elem_of_In, filter_In in Ht. apply Ht.
Qed.

(** The loops of the scalars and enums, of the input objects and of the
unions have no object among their types. *)
Lemma no_object_in (kinds : list string) (l before after : list IntrospectionType)
    (t : IntrospectionType) :
  str_in "OBJECT" kinds = false ->
  List.filter (kind_in kinds) l = before ++ t :: after ->
  kind t = "OBJECT" -> False.
Proof.
  intros Hno Hl Hk.
  assert (Hin : t ∈ List.filter (kind_in kinds) l).
  { rewrite Hl. apply elem_of_app. right. now left. }
  apply list_elem_of_In, filter_In in Hin as [_ Hin].
  unfold kind_in in Hin. rewrite Hk in Hin. congruence.
Qed.

(** [write_types] from a state whose written types are [W0]: what it
raises is in [E] when the closing assertion's exception is and when, at
each object, the exceptions of the loop over its interfaces are, with
all the types before the object written. *)
Lemma write_types_raises (self : CodeGen) (W0 : gset string) :
  E (AssertionError []) ->
  (forall before t after bases e,
     objects_interfaces (classify (self_types self)) = before ++ t :: after ->
     kind t = "OBJECT" ->
     object_interfaces self
       (W0 ∪ declared_names
          ((scalars_enums (classify (self_types self)) ++
            input_objects (classify (self_types self))) ++ before))
       (iter_list (interfaces t)) bases ∅ = Raise e ->
     E e) ->
  triple E (fun st => written_types st = W0) (write_types self) (fun _ => True).
Proof using E_type E_value E_parse.
  intros Hclose Hobj st Hst. rewrite write_types_run. revert st Hst.
  set (b := classify (self_types self)) in *.
  set (Inv := fun (d : list IntrospectionType) (st : GenState) =>
                written_types st = W0 ∪ declared_names d).
  assert (Hbanner : forall text d, triple E (Inv d) (write_banner text) (Inv d)).
  { intros text d. apply triple_frame.
    - apply keeps_write_banner.
    - apply raises_only_write_banner.
    - intros st st' Hw. unfold Inv. now rewrite Hw. }
  change (triple E (fun st => written_types st = W0)
            (emit_buckets self b;;
             match unclaimed b with [] => mret () | _ => raise (AssertionError []) end)
            (fun _ => True)).
  apply (triple_bind E _ (fun _ => True)).
  2:{ intros []. intros st _. destruct (unclaimed b); [exact I | exact Hclose]. }
  apply (triple_weaken E _ (Inv []) _
           (Inv ((((scalars_enums b ++ input_objects b) ++ objects_interfaces b) ++ unions b)))).
  2:{ intros st Hst. unfold Inv. rewrite Hst. apply set_eq. intros x.
      rewrite elem_of_union. pose proof (not_elem_of_empty (C := gset string) x).
      unfold declared_names; cbn. tauto. }
  2:{ intros st _. exact I. }
  unfold emit_buckets.
  apply (triple_bind E _ (Inv [])); [apply Hbanner | intros _].
  apply (triple_bind E _ (Inv (scalars_enums b))).
  { change (scalars_enums b) with ([] ++ scalars_enums b) at 2.
    apply (triple_phase self _ basic_kinds); [unfold phase_mapper; tauto | apply kind_in_filter |].
    intros before t after bases e Hl Hk. exfalso.
    now apply (no_object_in basic_kinds _ _ _ _ eq_refl Hl). }
  intros _.
  apply (triple_bind E _ (Inv (scalars_enums b))); [apply Hbanner | intros _].
  apply (triple_bind E _ (Inv (scalars_enums b ++ input_objects b))).
  { apply (triple_phase self _ input_kinds); [unfold phase_mapper; tauto | apply kind_in_filter |].
    intros before t after bases e Hl Hk. exfalso.
    now apply (no_object_in input_kinds _ _ _ _ eq_refl Hl). }
  intros _.
  apply (triple_bind E _ (Inv (scalars_enums b ++ input_objects b))); [apply Hbanner | intros _].
  apply (triple_bind E _ (Inv ((scalars_enums b ++ input_objects b) ++ objects_interfaces b))).
  { apply (triple_phase self _ output_kinds); [unfold phase_mapper; tauto | apply kind_in_filter |].
    exact Hobj. }
  intros _.
  apply (triple_bind E _ (Inv ((scalars_enums b ++ input_objects b) ++ objects_interfaces b)));
    [apply Hbanner | intros _].
  apply (triple_phase self _ post_kinds); [unfold phase_mapper; tauto | apply kind_in_filter |].
  intros before t after bases e Hl Hk. exfalso.
  now apply (no_object_in post_kinds _ _ _ _ eq_refl Hl).
Qed.

(** The same for [write]: the header and the entry points raise nothing
and write no type. *)
Lemma write_raises (self : CodeGen) (st : GenState) :
  E (AssertionError []) ->
  (forall before t after bases e,
     objects_interfaces (classify (self_types self)) = before ++ t :: after ->
     kind t = "OBJECT" ->
     object_interfaces self
       (written_types st ∪ declared_names
          ((scalars_enums (classify (self_types self)) ++
            input_objects (classify (self_types self))) ++ before))
       (iter_list (interfaces t)) bases ∅ = Raise e ->
     E e) ->
  match (write self st).1 with Ok _ => True | Raise e => E e end.
Proof using E_type E_value E_parse.
  intros Hclose Hobj.
  assert (H : triple E (fun st' => written_types st' = written_types st) (write self)
                (fun _ => True)).
  { unfold write.
    apply (triple_bind E _ (fun st' => written_types st' = written_types st)).
    { apply triple_frame; [apply keeps_write_header | apply raises_only_write_header |].
      intros s s' Hw. now rewrite Hw. }
    intros _. apply (triple_bind E _ (fun _ => True)).
    { now apply write_types_raises. }
    intros _. apply raises_only_write_entry_points. }
  specialize (H st eq_refl). now destruct (write self st) as [[[]|e] st'].
Qed.
End Exceptions.

(** ** Runs that cannot fail at an interface *)



Lemma elem_of_declared_names (l : list IntrospectionType) (n : string) :
  n ∈ declared_names l <-> exists t, t ∈ l /\ skipped t = false /\ name t = n.
Proof.
  unfold declared_names. rewrite elem_of_list_to_set, list_elem_of_In, in_map_iff.
  split.
  - intros (t & Hn & Ht). apply filter_In in Ht as [Ht Hs]. exists t.
    rewrite list_elem_of_In. apply negb_true_iff in Hs. tauto.
  - intros (t & Ht & Hs & Hn). exists t. rewrite filter_In, <- list_elem_of_In, Hs. tauto.
Qed.


(** The look-up of an interface in [type_by_name] never fails: unless
the parser of a default value raises it, no run of a generator made by
[__init__] ends in a [KeyError]. *)
Theorem interface_lookup_never_fails (schema_name : string) (schema : Schema) (n : string) :
  (forall source, parse_graphql_value source <> Raise (KeyError n)) ->
  (write (CodeGen_init schema_name schema) initial_state).1 <> Raise (KeyError n).
Proof.
  intros Hparse Hrun.
  pose proof (write_raises (fun e => e <> KeyError n)) as H.
  specialize (H ltac:(discriminate) ltac:(discriminate)
                ltac:(intros source e Hp ->; exact (Hparse source Hp))
                (CodeGen_init schema_name schema) initial_state ltac:(discriminate)).
  rewrite Hrun in H. apply H; [|reflexivity].
  set (self := CodeGen_init schema_name schema).
  intros before t after bases e Hl Hk Hi He.
  apply object_interfaces_raises in Hi as [->|[(k & _ & Hw & Hnone)|(iface & _ & -> & _)]];
    try discriminate.
  apply elem_of_union in Hw as [Hw|Hw]; [now apply not_elem_of_empty in Hw|].
  apply elem_of_declared_names in Hw as (u & Hu & _ & <-).
  assert (Hin : u ∈ self_types self).
  { rewrite (classify_perm (self_types self)). cbv zeta.
    rewrite !elem_of_app in Hu. rewrite !elem_of_app. rewrite Hl, elem_of_app. tauto. }
  assert (Hsome : is_Some (self_type_by_name self !! name u)).
  { apply index_lookup_some. apply list_elem_of_In, in_map, list_elem_of_In. exact Hin. }
  rewrite Hnone in Hsome. now destruct Hsome.
Qed.

(** ** The name of the schema *)

Lemma str_chars_chars_str (l : list ascii) : str_chars (chars_str l) = l.
Proof. apply list_ascii_of_string_of_list_ascii. Qed.

Lemma chars_str_str_chars (s : string) : chars_str (str_chars s) = s.
Proof. apply string_of_list_ascii_of_string. Qed.

Lemma forallb_rev {A} (p : A -> bool) (l : list A) : forallb p (rev l) = forallb p l.
Proof.
  induction l as [|x l IH]; [reflexivity|].
  cbn. rewrite forallb_app, IH. cbn. rewrite andb_true_r. apply andb_comm.
Qed.

Lemma sub_other_runs_name_chars (in_run : bool) (l : list ascii) :
  forallb is_name_char (sub_other_runs in_run l) = true.
Proof.
  revert in_run. induction l as [|c l IH]; intros b; [reflexivity|].
  cbn [sub_other_runs]. destruct (is_name_char c) eqn:Hc.
  - cbn [forallb]. now rewrite Hc, IH.
  - destruct b; [apply IH|]. cbn [forallb]. now rewrite IH.
Qed.

Lemma sub_other_runs_clean (l : list ascii) :
  forallb is_name_char l = true -> sub_other_runs false l = l.
Proof.
  induction l as [|c l IH]; [reflexivity|].
  cbn [forallb sub_other_runs]. intros H. apply andb_true_iff in H as [Hc Hl].
  now rewrite Hc, (IH Hl).
Qed.

Lemma sub_other_runs_underscores (in_run : bool) (l : list ascii) :
  forallb is_underscore (sub_other_runs in_run l) = forallb (fun c => negb (is_alnum c)) l.
Proof.
  revert in_run. induction l as [|c l IH]; intros b; [reflexivity|].
  cbn [sub_other_runs forallb]. unfold is_alnum at 1.
  destruct (is_name_char c) eqn:Hc.
  - cbn [forallb]. rewrite IH. cbn. now rewrite negb_involutive.
  - cbn. destruct b; [apply IH|]. cbn [forallb]. now rewrite IH.
Qed.

Lemma lstrip_underscores_head (l : list ascii) :
  starts_with_underscore (lstrip_underscores l) = false.
Proof.
  induction l as [|c l IH]; [reflexivity|].
  cbn [lstrip_underscores]. destruct (is_underscore c) eqn:Hc; [exact IH|].
  cbn. exact Hc.
Qed.

Lemma lstrip_underscores_clean (l : list ascii) :
  starts_with_underscore l = false -> lstrip_underscores l = l.
Proof. destruct l as [|c l]; [reflexivity|]. cbn. now intros ->. Qed.

Lemma lstrip_underscores_split (l : list ascii) :
  exists p, l = p ++ lstrip_underscores l /\ forallb is_underscore p = true.
Proof.
  induction l as [|c l (p & Hl & Hp)]; [now exists []|].
  cbn [lstrip_underscores]. destruct (is_underscore c) eqn:Hc.
  - exists (c :: p). cbn. rewrite Hc, Hp. split; [now rewrite <- Hl | reflexivity].
  - now exists [].
Qed.

Lemma lstrip_underscores_forallb (p : ascii -> bool) (l : list ascii) :
  forallb p l = true -> forallb p (lstrip_underscores l) = true.
Proof.
  induction l as [|c l IH]; [reflexivity|].
  intros H. cbn [lstrip_underscores]. destruct (is_underscore c); [|exact H].
  cbn in H. apply andb_true_iff in H as [_ H]. now apply IH.
Qed.

Lemma lstrip_underscores_nil (l : list ascii) :
  lstrip_underscores l = [] <-> forallb is_underscore l = true.
Proof.
  induction l as [|c l IH]; [easy|].
  cbn. destruct (is_underscore c); cbn; [exact IH|]. split; discriminate.
Qed.

Lemma strip_underscores_forallb (p : ascii -> bool) (l : list ascii) :
  forallb p l = true -> forallb p (strip_underscores l) = true.
Proof.
  intros H. unfold strip_underscores. rewrite forallb_rev.
  apply lstrip_underscores_forallb. rewrite forallb_rev.
  now apply lstrip_underscores_forallb.
Qed.

Lemma strip_underscores_ends (l : list ascii) :
  starts_with_underscore (strip_underscores l) = false /\
  ends_with_underscore (strip_underscores l) = false.
Proof.
  unfold ends_with_underscore, strip_underscores. rewrite rev_involutive.
  split; [|apply lstrip_underscores_head].
  pose proof (lstrip_underscores_head l) as Hm.
  set (m := lstrip_underscores l) in *.
  destruct (lstrip_underscores_split (rev m)) as (p & Hsplit & _).
  apply (f_equal (@rev ascii)) in Hsplit. rewrite rev_involutive, rev_app_distr in Hsplit.
  destruct (rev (lstrip_underscores (rev m))) as [|c t]; [reflexivity|].
  rewrite Hsplit in Hm. exact Hm.
Qed.

Lemma strip_underscores_clean (l : list ascii) :
  starts_with_underscore l = false -> ends_with_underscore l = false ->
  strip_underscores l = l.
Proof.
  intros H1 H2. unfold strip_underscores.
  rewrite (lstrip_underscores_clean l H1), (lstrip_underscores_clean (rev l) H2).
  apply rev_involutive.
Qed.

Lemma strip_underscores_nil (l : list ascii) :
  strip_underscores l = [] <-> forallb is_underscore l = true.
Proof.
  unfold strip_underscores.
  rewrite <- (lstrip_underscores_nil l).
  split.
  - intros H. apply (f_equal (@rev ascii)) in H. rewrite rev_involutive in H. cbn in H.
    apply lstrip_underscores_nil in H. rewrite forallb_rev in H.
    pose proof (lstrip_underscores_head l) as Hh.
    destruct (lstrip_underscores l) as [|c t]; [reflexivity|].
    cbn in H, Hh. rewrite Hh in H. discriminate.
  - now intros ->.
Qed.

(** A text that is already clean goes through [cleanup_schema_name] as
it is, with the underscore put before a leading digit. *)
Lemma cleanup_schema_name_clean (l : list ascii) :
  forallb is_name_char l = true ->
  starts_with_underscore l = false -> ends_with_underscore l = false ->
  cleanup_schema_name (chars_str (if starts_with_digit l then "_"%char :: l else l)) =
  chars_str (if starts_with_digit l then "_"%char :: l else l).
Proof.
  intros Hn H1 H2. unfold cleanup_schema_name. rewrite str_chars_chars_str.
  destruct (starts_with_digit l) eqn:Hd.
  - rewrite sub_other_runs_clean by (cbn [forallb]; now rewrite Hn).
    assert (Hs : strip_underscores ("_"%char :: l) = l).
    { unfold strip_underscores. cbn [lstrip_underscores].
      change (is_underscore "_") with true. cbv iota.
      rewrite (lstrip_underscores_clean l H1), (lstrip_underscores_clean (rev l) H2).
      apply rev_involutive. }
    now rewrite Hs, Hd.
  - rewrite (sub_other_runs_clean l Hn), (strip_underscores_clean l H1 H2). now rewrite Hd.
Qed.

(** The name [cleanup_schema_name] returns is made of ASCII letters,
digits and underscores only, does not begin with a digit and does not
end with an underscore: it is a Python identifier, or empty. *)
Theorem cleanup_schema_name_identifier (schema_name : string) :
  let name := str_chars (cleanup_schema_name schema_name) in
  forallb is_name_char name = true /\
  starts_with_digit name = false /\
  ends_with_underscore name = false.
Proof.
  unfold cleanup_schema_name. rewrite str_chars_chars_str. cbv zeta.
  set (l := strip_underscores (sub_other_runs false (str_chars schema_name))).
  assert (Hn : forallb is_name_char l = true)
    by apply strip_underscores_forallb, sub_other_runs_name_chars.
  destruct (strip_underscores_ends (sub_other_runs false (str_chars schema_name)))
    as [H1 H2]. fold l in H1, H2.
  destruct (starts_with_digit l) eqn:Hd; [|now repeat split].
  split; [cbn [forallb]; now rewrite Hn|]. split; [reflexivity|].
  unfold ends_with_underscore in *. cbn [rev].
  destruct l as [|c t]; [discriminate|].
  destruct (rev (c :: t)) as [|x r] eqn:Hr; [|exact H2].
  apply (f_equal (@length ascii)) in Hr. rewrite length_rev in Hr. discriminate.
Qed.

(** Cleaning a name twice is cleaning it once. *)
Theorem cleanup_schema_name_idempotent (schema_name : string) :
  cleanup_schema_name (cleanup_schema_name schema_name) = cleanup_schema_name schema_name.
Proof.
  unfold cleanup_schema_name at 2 3.
  set (l := strip_underscores (sub_other_runs false (str_chars schema_name))).
  destruct (strip_underscores_ends (sub_other_runs false (str_chars schema_name)))
    as [H1 H2]. fold l in H1, H2.
  apply cleanup_schema_name_clean; [|exact H1|exact H2].
  apply strip_underscores_forallb, sub_other_runs_name_chars.
Qed.

(** A name of letters, digits and underscores that begins with a letter
and does not end with an underscore is kept as it is. *)
Theorem cleanup_schema_name_keeps_identifier (schema_name : string) :
  forallb is_name_char (str_chars schema_name) = true ->
  starts_with_digit (str_chars schema_name) = false ->
  starts_with_underscore (str_chars schema_name) = false ->
  ends_with_underscore (str_chars schema_name) = false ->
  cleanup_schema_name schema_name = schema_name.
Proof.
  intros Hn Hd H1 H2.
  pose proof (cleanup_schema_name_clean (str_chars schema_name) Hn H1 H2) as H.
  now rewrite Hd, chars_str_str_chars in H.
Qed.

(** The name comes out empty exactly when the text has no ASCII letter
and no digit. *)
Theorem cleanup_schema_name_empty (schema_name : string) :
  cleanup_schema_name schema_name = "" <->
  forallb (fun c => negb (is_alnum c)) (str_chars schema_name) = true.
Proof.
  rewrite <- (sub_other_runs_underscores false), <- strip_underscores_nil.
  unfold cleanup_schema_name.
  set (l := strip_underscores (sub_other_runs false (str_chars schema_name))).
  split.
  - intros H. destruct l as [|c t]; [reflexivity|].
    cbn in H. now destruct (is_digit c).
  - now intros ->.
Qed.

(** ** Paths into the schema *)

Lemma walk_path_app (d : pyval) (p1 p2 : list string) :
  walk_path d (p1 ++ p2) = (d' ← walk_path d p1; walk_path d' p2).
Proof.
  revert d. induction p1 as [|key p1 IH]; intros d; [reflexivity|].
  cbn [app walk_path]. destruct (truthy d) eqn:Ht.
  - destruct (py_get d key PNone) as [v|e]; cbn; [apply IH | reflexivity].
  - cbn. destruct p2 as [|k p2]; [reflexivity|]. cbn. now rewrite Ht.
Qed.

Lemma walk_path_at_path (d v : pyval) (path : list string) :
  at_path d path = Some v -> walk_path d path = Ok v.
Proof.
  revert d. induction path as [|key path IH]; intros d; cbn; [congruence|].
  destruct d as [| | | | | | |entries]; try discriminate.
  destruct (assoc key entries) as [x|] eqn:Hk; [|discriminate].
  intros Hv. destruct entries as [|entry entries]; [discriminate|].
  cbn [truthy py_get]. rewrite Hk. cbn. now apply IH.
Qed.

(** When every key of the path is found, each in the object the key
before it leads to, [get_path] returns the value at the end of the
path, and the fallback in place of a null. *)
Theorem get_path_present (schema v fallback : pyval) (path : list string) :
  at_path schema path = Some v ->
  get_path schema path fallback = Ok (or_fallback v fallback).
Proof.
  intros Hv. unfold get_path. rewrite (walk_path_at_path _ _ _ Hv). cbn.
  now destruct v.
Qed.

(** A key that is missing somewhere along the path gives the fallback,
whatever keys follow it; but when the object that lacks the key is the
empty one, [get_path] returns that empty object. *)
Theorem get_path_missing (schema fallback : pyval) (entries : list (string * pyval))
    (before after : list string) (key : string) :
  at_path schema before = Some (PDict entries) ->
  assoc key entries = None ->
  get_path schema (before ++ key :: after) fallback =
  Ok (match entries with [] => PDict [] | _ => fallback end).
Proof.
  intros Hd Hk. unfold get_path.
  rewrite walk_path_app, (walk_path_at_path _ _ _ Hd). cbn.
  destruct entries as [|entry entries]; [reflexivity|].
  cbn [assoc] in *. destruct entry as [k x].
  destruct (decide (key = k)); [discriminate|]. rewrite Hk. cbn.
  now destruct after.
Qed.

(** [get_path] raises nothing but the [AttributeError] of a value that
has no [get]: a missing key is no [KeyError]. *)
Theorem get_path_raises (schema fallback : pyval) (path : list string) (e : exn) :
  get_path schema path fallback = Raise e -> e = AttributeError.
Proof.
  unfold get_path.
  assert (H : walk_path schema path = Raise e -> e = AttributeError).
  { revert schema. induction path as [|key path IH]; intros d; cbn; [discriminate|].
    destruct (truthy d); [|discriminate].
    destruct d; cbn; try congruence. apply IH. }
  destruct (walk_path schema path) as [d|e']; cbn.
  - now destruct d.
  - intros [= <-]. now apply H.
Qed.

End Model.

(** ** The generator on the example schemas *)

Abbreviation example_write_types := (write_types text_float text_float same_name parse_int_literal).
Abbreviation example_write_type_object :=
  (write_type_object text_float text_float same_name parse_int_literal).
Abbreviation example_write_arg := (write_arg text_float text_float same_name parse_int_literal).
Abbreviation example_main :=
  (main text_float text_float text_float_bool same_name parse_int_literal
     (fun _ => minimal_schema)).

(** C1: the interface chain is a schema the generator cannot write.  The
    types sorted by name are A, B, C, D; no type of that list is less than
    the one before it under [depend_cmp], so the list is one ascending run
    and [list.sort] leaves it as it is, the object B before its interface D
    although [depend_cmp D B] is -1; [write_type_object] then stops at B on
    the assertion that D has been written, after the declaration of A. *)
Theorem interface_chain_aborts :
  let self := CodeGen_init "schema" chain_schema in
  self_types self = [chain_A; chain_B; chain_C; chain_D] /\
  depend_cmp chain_B chain_A = 1 /\
  depend_cmp chain_C chain_B = 0 /\
  depend_cmp chain_D chain_C = 0 /\
  depend_cmp chain_D chain_B = -1 /\
  list_sort depend_lt (self_types self) = [chain_A; chain_B; chain_C; chain_D] /\
  has_iface (iter_list (interfaces chain_B)) "D" = true /\
  (example_write_types self initial_state).1 = Raise (AssertionError [Some "D"]) /\
  elements (written_types (example_write_types self initial_state).2) = ["A"].
Proof. vm_compute. repeat split. Qed.

(** The claim C5 as stated fails on [{"types": []}]: the document has a
    [types] field, so it has one of the three shapes read by presence, and
    yet it is refused with the schema-format error. *)
Lemma presence_of_types_is_not_enough :
  ~ (forall document : pyval,
       schema_format_error (load_schema text_float_bool document) <-> ~ has_shape document).
Proof.
  intros H. destruct (H empty_types_document) as [H1 _].
  apply H1.
  - exists no_shape. reflexivity.
  - exists [("types", PList [])]. split; [reflexivity|]. left. eexists; reflexivity.
Qed.

(** ** Witnesses *)

Lemma field_exclusivity_witness :
  let self := CodeGen_init "schema" user_schema in
  let st := mkState {["Node"]} [] in
  str_in (name user_object) builtin_object_names = false /\
  (example_write_type_object self user_object st).1 = Ok () /\
  exists bases declared keep,
    fields user_object = Some declared /\
    (forall f, keep f = true <-> ~ declared_on_interface self user_object (field_name f)) /\
    example_write_type_object self user_object st =
      write_type_container same_name self user_object bases (List.filter keep declared)
        (write_field_output text_float text_float same_name parse_int_literal) st.
Proof.
  intros self st.
  assert (Hb : str_in (name user_object) builtin_object_names = false) by reflexivity.
  assert (Hok : (example_write_type_object self user_object st).1 = Ok ())
    by (vm_compute; reflexivity).
  split; [exact Hb|]. split; [exact Hok|].
  exact (field_exclusivity text_float text_float same_name parse_int_literal
           self user_object st _ Hb (run_ok _ Hok)).
Defined.

Lemma literal_evaluation_witness :
  NoDup (map field_key [ObjectField "a" (IntValue "1"); ObjectField "b" (StringValue "x")]) /\
  evaluate text_float object_a_b = Ok (PDict [("a", PInt 1); ("b", PStr "x")]).
Proof.
  assert (Hnd : NoDup (map field_key
                         [ObjectField "a" (IntValue "1"); ObjectField "b" (StringValue "x")])).
  { cbn. apply NoDup_cons. split.
    - intros Hin. apply elem_of_cons in Hin as [Hin|Hin]; [discriminate|].
      now apply elem_of_nil in Hin.
    - apply NoDup_singleton. }
  split; [exact Hnd|].
  destruct (literal_evaluation text_float parse_int_literal)
    as (_ & _ & _ & _ & _ & _ & _ & _ & H & _).
  exact (H _ _ Hnd eq_refl).
Defined.

Lemma reference_resolution_witness :
  "SCALAR" <> "NON_NULL" /\ "SCALAR" <> "LIST" /\
  (get_type_ref {["String"]} string_ref ∅ = Ok "String" <->
   "String" ∈ ({["String"]} : gset string) /\ "String" ∉ (∅ : gset string)).
Proof.
  assert (Hn : "SCALAR" <> "NON_NULL") by discriminate.
  assert (Hl : "SCALAR" <> "LIST") by discriminate.
  split; [exact Hn|]. split; [exact Hl|].
  destruct (reference_resolution {["String"]} ∅) as (_ & _ & _ & H & _).
  exact (proj1 (H "SCALAR" "String" None Hn Hl)).
Defined.

Lemma load_schema_shapes_witness :
  truthy text_float_bool
    (get [("data", PDict [("__schema", PDict [("types", PList [PStr "t"])])])] "types") = false /\
  data_usable (pyfloat := string)
    [("data", PDict [("__schema", PDict [("types", PList [PStr "t"])])])] /\
  load_schema text_float_bool envelope_document = Ok (PDict [("types", PList [PStr "t"])]).
Proof.
  split; [reflexivity|]. split; [exact I|].
  destruct (load_schema_shapes text_float text_float text_float_bool same_name
              parse_int_literal (fun _ => minimal_schema) envelope_document) as (_ & H & _).
  destruct (H _ eq_refl) as (_ & H2).
  destruct (H2 eq_refl I) as (H3 & _).
  exact (H3 eq_refl).
Defined.

Lemma classification_total_witness :
  let self := CodeGen_init "schema" minimal_schema in
  Forall known_kind (self_types self) /\
  unclaimed (classify (self_types self)) = [] /\
  example_write_types self initial_state =
    emit_buckets text_float text_float same_name parse_int_literal self
      (classify (self_types self)) initial_state.
Proof.
  intros self.
  assert (Hk : Forall known_kind (self_types self)).
  { repeat (apply List.Forall_cons; [reflexivity|]). apply List.Forall_nil. }
  split; [exact Hk|].
  destruct (classification_total text_float text_float same_name parse_int_literal
              self initial_state) as (_ & _ & _ & H & _).
  exact (H Hk).
Defined.

Lemma argument_default_witness :
  let arg := mkArg "first" (named "SCALAR" "Int") (Some "42") in
  get_type_ref (written_types initial_state) (arg_type arg) ∅ = Ok "'Int'" /\
  "42" <> "" /\
  startswith "42" "$" = false /\
  example_write_arg arg ∅ initial_state =
    writer (arg_line same_name arg "'Int'" "42") initial_state.
Proof.
  intros arg.
  assert (Href : get_type_ref (written_types initial_state) (arg_type arg) ∅ = Ok "'Int'")
    by reflexivity.
  assert (Hne : "42" <> "") by discriminate.
  split; [exact Href|]. split; [exact Hne|]. split; [reflexivity|].
  destruct (argument_default text_float text_float same_name parse_int_literal
              arg ∅ initial_state "'Int'" Href) as (_ & _ & H).
  exact (H "42" eq_refl Hne eq_refl).
Defined.

Lemma empty_types_rejected_witness :
  load_schema text_float_bool empty_types_document = Raise (SystemExit no_shape).
Proof.
  exact (empty_types_rejected text_float_bool [("types", PList [])] eq_refl I eq_refl).
Defined.

Lemma depend_cmp_antisymmetric_witness :
  ~ mutual chain_C chain_B /\ depend_cmp chain_C chain_B = - depend_cmp chain_B chain_C.
Proof.
  assert (Hm : ~ mutual chain_C chain_B) by (intros [H _]; discriminate H).
  split; [exact Hm|].
  exact (proj1 depend_cmp_antisymmetric chain_C chain_B Hm).
Defined.

(** ** Witnesses of the further properties *)

Abbreviation example_write := (write text_float text_float same_name parse_int_literal).

Lemma written_after_write_types_witness :
  let self := CodeGen_init "schema" minimal_schema in
  (example_write_types self initial_state).1 = Ok () /\
  written_types (example_write_types self initial_state).2 =
    written_types initial_state ∪ declared_names (self_types self).
Proof.
  intros self.
  assert (Hok : (example_write_types self initial_state).1 = Ok ())
    by (vm_compute; reflexivity).
  split; [exact Hok|].
  exact (written_after_write_types text_float text_float same_name parse_int_literal
           self initial_state _ (run_ok _ Hok)).
Defined.

Lemma unwritten_interface_aborts_witness :
  let self := CodeGen_init "schema" user_schema in
  str_in (name user_object) builtin_object_names = false /\
  Exists (fun iface => forall n, ref_name iface = Some n -> n ∉ written_types initial_state)
    (iter_list (interfaces user_object)) /\
  exists e, example_write_type_object self user_object initial_state = (Raise e, initial_state).
Proof.
  intros self.
  assert (Hb : str_in (name user_object) builtin_object_names = false) by reflexivity.
  assert (Hex : Exists (fun iface => forall n, ref_name iface = Some n ->
                                     n ∉ written_types initial_state)
                  (iter_list (interfaces user_object))).
  { apply List.Exists_cons_hd. intros n _. apply not_elem_of_empty. }
  split; [exact Hb|]. split; [exact Hex|].
  exact (unwritten_interface_aborts text_float text_float same_name parse_int_literal
           self user_object initial_state Hb Hex).
Defined.

Lemma written_object_interfaces_witness :
  let self := CodeGen_init "schema" user_schema in
  let st := mkState {["Node"]} [] in
  str_in (name user_object) builtin_object_names = false /\
  (example_write_type_object self user_object st).1 = Ok () /\
  Forall (fun iface => exists n, ref_name iface = Some n /\ n ∈ written_types st)
    (iter_list (interfaces user_object)).
Proof.
  intros self st.
  assert (Hb : str_in (name user_object) builtin_object_names = false) by reflexivity.
  assert (Hok : (example_write_type_object self user_object st).1 = Ok ())
    by (vm_compute; reflexivity).
  split; [exact Hb|]. split; [exact Hok|].
  exact (written_object_interfaces text_float text_float same_name parse_int_literal
           self user_object st _ Hb (run_ok _ Hok)).
Defined.

Lemma load_schema_data_not_object_witness :
  truthy text_float_bool (get [("data", PNone)] "types") = false /\
  assoc "data" [("data", PNone (pyfloat := string))] = Some PNone /\
  (forall entries, PNone (pyfloat := string) <> PDict entries) /\
  load_schema text_float_bool (PDict [("data", PNone)]) = Raise AttributeError.
Proof.
  assert (Hn : forall entries, PNone (pyfloat := string) <> PDict entries)
    by (intros entries; discriminate).
  split; [reflexivity|]. split; [reflexivity|]. split; [exact Hn|].
  exact (load_schema_data_not_object text_float_bool [("data", PNone)] PNone
           eq_refl eq_refl Hn).
Defined.

Lemma load_schema_returns_truthy_witness :
  load_schema text_float_bool envelope_document = Ok (PDict [("types", PList [PStr "t"])]) /\
  truthy text_float_bool (PDict [("types", PList [PStr "t"])]) = true.
Proof.
  split; [reflexivity|].
  exact (proj1 (load_schema_returns_truthy text_float_bool envelope_document
                  (PDict [("types", PList [PStr "t"])]) eq_refl)).
Defined.

Lemma get_type_ref_well_wrapped_witness :
  (well_wrapped (non_null string_ref) = true /\
   exists r, get_type_ref ∅ (non_null string_ref) ∅ = Ok r) /\
  (well_wrapped (mkTypeRef "LIST" None None) = false /\
   get_type_ref ∅ (mkTypeRef "LIST" None None) ∅ = Raise TypeError).
Proof.
  split; (split; [reflexivity|]).
  - exact (proj1 (get_type_ref_well_wrapped ∅ ∅ (non_null string_ref)) eq_refl).
  - exact (proj2 (get_type_ref_well_wrapped ∅ ∅ (mkTypeRef "LIST" None None)) eq_refl).
Defined.

Lemma type_by_name_index_witness :
  NoDup (map name (types user_schema)) /\
  user_object ∈ types user_schema /\
  self_type_by_name (CodeGen_init "schema" user_schema) !! name user_object = Some user_object.
Proof.
  assert (Hnd : NoDup (map name (types user_schema))).
  { cbn. apply NoDup_cons. split.
    - intros Hin. apply elem_of_cons in Hin as [Hin|Hin]; [discriminate|].
      now apply elem_of_nil in Hin.
    - apply NoDup_singleton. }
  assert (Hin : user_object ∈ types user_schema) by (right; left).
  split; [exact Hnd|]. split; [exact Hin|].
  destruct (type_by_name_index "schema" user_schema) as (_ & _ & H).
  exact (H Hnd user_object Hin).
Defined.


Lemma interface_lookup_never_fails_witness :
  (forall source, parse_int_literal source <> Raise (KeyError "Node")) /\
  (example_write (CodeGen_init "schema" user_schema) initial_state).1 <> Raise (KeyError "Node").
Proof.
  assert (Hparse : forall source, parse_int_literal source <> Raise (KeyError "Node")).
  { intros source. unfold parse_int_literal. now destruct (py_int source). }
  split; [exact Hparse|].
  exact (interface_lookup_never_fails text_float text_float same_name parse_int_literal
           "schema" user_schema "Node" Hparse).
Defined.

Lemma cleanup_schema_name_keeps_identifier_witness :
  forallb is_name_char (str_chars "github_schema") = true /\
  starts_with_digit (str_chars "github_schema") = false /\
  starts_with_underscore (str_chars "github_schema") = false /\
  ends_with_underscore (str_chars "github_schema") = false /\
  cleanup_schema_name "github_schema" = "github_schema".
Proof.
  repeat (split; [reflexivity|]).
  exact (cleanup_schema_name_keeps_identifier "github_schema" eq_refl eq_refl eq_refl eq_refl).
Defined.

Lemma get_path_present_witness :
  at_path (pyfloat := string) entry_points_document ["queryType"; "name"] = Some (PStr "Query") /\
  get_path text_float_bool entry_points_document ["queryType"; "name"] PNone = Ok (PStr "Query").
Proof.
  split; [reflexivity|].
  exact (get_path_present text_float_bool entry_points_document (PStr "Query") PNone
           ["queryType"; "name"] eq_refl).
Defined.

Lemma get_path_missing_witness :
  at_path (pyfloat := string) entry_points_document [] = Some entry_points_document /\
  assoc "subscriptionType"
    [("queryType", PDict (pyfloat := string) [("name", PStr "Query")]);
     ("mutationType", PStr "Mutation")] = None /\
  get_path text_float_bool entry_points_document ["subscriptionType"; "name"] (PStr "none") =
    Ok (PStr "none").
Proof.
  split; [reflexivity|]. split; [reflexivity|].
  exact (get_path_missing text_float_bool entry_points_document (PStr "none") _
           [] ["name"] "subscriptionType" eq_refl eq_refl).
Defined.

Lemma get_path_raises_witness :
  get_path text_float_bool entry_points_document ["mutationType"; "name"] PNone =
    Raise AttributeError /\
  AttributeError = AttributeError.
Proof.
  split; [reflexivity|].
  exact (get_path_raises text_float_bool entry_points_document PNone
           ["mutationType"; "name"] AttributeError eq_refl).
Defined.
